(** * bnl-docked-layout: the docking layout of BnL Charts

    A shallow embedding of [bnlCharts/directives/bnl-docked-layout.js]:
    [parseMargin], [positionChild] and the ['bnl-chart-render'] handler of
    the [bnlDockedLayout] directive.

    JavaScript numbers are IEEE 754 binary64 values; they are embedded as
    Rocq's primitive [float]s, so [+], [-], [<], [isNaN] and the
    special values NaN, the infinities and the two zeros behave as in the
    source.  Attribute strings are sequences of 8-bit code units. *)

From Stdlib Require Import ZArith Floats Bool List String Ascii Lia Permutation.
Import ListNotations.

Local Open Scope string_scope.
Local Open Scope list_scope.

(** ** The host language: numbers, strings and the built-ins the file calls *)

Module JS.

(** [isNaN] on a value that already is a number. *)
Definition isNaN (v : float) : bool := PrimFloat.is_nan v.

(** [a !== b] on numbers: NaN differs from everything, [-0 !== 0] is false. *)
Definition strict_neq (a b : float) : bool := negb (PrimFloat.eqb a b).

(** [Math.max(a, b)]: NaN when either argument is NaN, else the larger
    one, [+0] counting as larger than [-0]. *)
Definition Math_max (a b : float) : float :=
  if PrimFloat.is_nan a || PrimFloat.is_nan b then PrimFloat.nan
  else if PrimFloat.ltb a b then b
  else if PrimFloat.ltb b a then a
  else if PrimFloat.Leibniz.eqb a PrimFloat.neg_zero then b else a.

(** [Math.min(a, b)]: NaN when either argument is NaN, else the smaller
    one, [-0] counting as smaller than [+0]. *)
Definition Math_min (a b : float) : float :=
  if PrimFloat.is_nan a || PrimFloat.is_nan b then PrimFloat.nan
  else if PrimFloat.ltb a b then a
  else if PrimFloat.ltb b a then b
  else if PrimFloat.Leibniz.eqb a PrimFloat.neg_zero then a else b.

(** Truthiness of a number ([0], [-0] and NaN are falsy). *)
Definition truthy_number (v : float) : bool :=
  negb (PrimFloat.is_nan v || PrimFloat.is_zero v).

(** Truthiness of a value that is a string or [undefined]. *)
Definition truthy (v : option string) : bool :=
  match v with
  | Some (String _ _) => true
  | Some EmptyString => false
  | None => false
  end.

(** *** [String.prototype.split] with a one-character separator *)

Fixpoint split_from (sep : ascii) (cur : string) (s : string) : list string :=
  match s with
  | EmptyString => [cur]
  | String c rest =>
      if Ascii.eqb c sep then cur :: split_from sep EmptyString rest
      else split_from sep (cur ++ String c EmptyString) rest
  end.

Definition split (sep : ascii) (s : string) : list string :=
  split_from sep EmptyString s.

(** *** [Number(string)]: the StringToNumber conversion

    The grammar is ECMAScript's StringNumericLiteral: optional white
    space (the white space and line terminator code units below 256)
    around an optionally signed decimal literal (with fraction and
    exponent, or [Infinity]) or an unsigned [0x]/[0o]/[0b] integer
    literal; the empty or all-blank string is [+0]; anything else is NaN.
    The mathematical value is rounded to the nearest binary64 value,
    ties to even. *)

Definition isWhiteSpace (c : ascii) : bool :=
  let n := N_of_ascii c in
  (N.eqb n 9 || N.eqb n 10 || N.eqb n 11 || N.eqb n 12 || N.eqb n 13
   || N.eqb n 32 || N.eqb n 160)%bool.

Fixpoint dropWhiteSpace (s : list ascii) : list ascii :=
  match s with
  | c :: s' => if isWhiteSpace c then dropWhiteSpace s' else s
  | [] => []
  end.

Definition trim (s : list ascii) : list ascii :=
  rev (dropWhiteSpace (rev (dropWhiteSpace s))).

(** The value of the digit [c] in the given radix, if it is one. *)
Definition digit_of (radix : Z) (c : ascii) : option Z :=
  let n := Z.of_N (N_of_ascii c) in
  let v :=
    if (48 <=? n)%Z && (n <=? 57)%Z then Some (n - 48)%Z
    else if (97 <=? n)%Z && (n <=? 102)%Z then Some (n - 87)%Z
    else if (65 <=? n)%Z && (n <=? 70)%Z then Some (n - 55)%Z
    else None in
  match v with
  | Some d => if (d <? radix)%Z then Some d else None
  | None => None
  end.

(** Reads the longest run of digits: its value continued from [acc],
    the number of digits read added to [n], and the rest. *)
Fixpoint read_digits (radix acc : Z) (n : nat) (s : list ascii)
  : Z * nat * list ascii :=
  match s with
  | c :: s' =>
      match digit_of radix c with
      | Some d => read_digits radix (acc * radix + d)%Z (S n) s'
      | None => (acc, n, s)
      end
  | [] => (acc, n, [])
  end.

(** [m * 2^e] rounded to binary64, ties to even. *)
Definition round_binary64 (m e : Z) : float :=
  SF2Prim (binary_normalize prec emax m e false).

(** [d * 10^e] for [0 <= d], rounded to binary64.  For a negative
    exponent the quotient is computed with more than 64 significant bits
    and a sticky bit for the remainder, which fixes the rounding. *)
Definition decimal_to_float (d e : Z) : float :=
  if (d =? 0)%Z then PrimFloat.zero
  else if (0 <=? e)%Z then round_binary64 (d * 10 ^ e) 0
  else
    let k := (10 ^ (- e))%Z in
    let s := Z.max 0 (66 + Z.log2 k - Z.log2 d) in
    let q := (d * 2 ^ s / k)%Z in
    let r := ((d * 2 ^ s) mod k)%Z in
    round_binary64 (2 * q + (if (r =? 0)%Z then 0 else 1)) (- s - 1).

(** ExponentPart_opt at the end of a decimal literal: the exponent, or
    [None] when what is left is not an exponent part. *)
Definition read_exponent (s : list ascii) : option Z :=
  match s with
  | [] => Some 0%Z
  | c :: s' =>
      if Ascii.eqb c "e" || Ascii.eqb c "E" then
        let '(neg, s'') :=
          match s' with
          | c' :: t =>
              if Ascii.eqb c' "-" then (true, t)
              else if Ascii.eqb c' "+" then (false, t)
              else (false, s')
          | [] => (false, s')
          end in
        match read_digits 10 0 0 s'' with
        | (_, O, _) => None
        | (v, S _, []) => Some (if neg then (- v)%Z else v)
        | (_, S _, _ :: _) => None
        end
      else None
  end.

(** StrUnsignedDecimalLiteral. *)
Definition unsigned_decimal (s : list ascii) : float :=
  if list_eq_dec ascii_dec s (list_ascii_of_string "Infinity")
  then PrimFloat.infinity
  else
    let '(ip, ni, s1) := read_digits 10 0 0 s in
    let '(dot, s2) :=
      match s1 with
      | c :: t => if Ascii.eqb c "." then (true, t) else (false, s1)
      | [] => (false, s1)
      end in
    let '(d, nf, s3) :=
      if dot then read_digits 10 ip 0 s2 else (ip, O, s2) in
    match ni, nf with
    | O, O => PrimFloat.nan
    | _, _ =>
        match read_exponent s3 with
        | Some e => decimal_to_float d (e - Z.of_nat nf)
        | None => PrimFloat.nan
        end
    end.

(** NonDecimalIntegerLiteral after its two-character prefix. *)
Definition radix_integer (radix : Z) (s : list ascii) : float :=
  match read_digits radix 0 0 s with
  | (v, S _, []) => round_binary64 v 0
  | _ => PrimFloat.nan
  end.

Definition StringToNumber (s : list ascii) : float :=
  match trim s with
  | [] => PrimFloat.zero
  | c :: t =>
      if Ascii.eqb c "-" then PrimFloat.opp (unsigned_decimal t)
      else if Ascii.eqb c "+" then unsigned_decimal t
      else
        match t with
        | p :: u =>
            if Ascii.eqb c "0" && (Ascii.eqb p "x" || Ascii.eqb p "X")
            then radix_integer 16 u
            else if Ascii.eqb c "0" && (Ascii.eqb p "o" || Ascii.eqb p "O")
            then radix_integer 8 u
            else if Ascii.eqb c "0" && (Ascii.eqb p "b" || Ascii.eqb p "B")
            then radix_integer 2 u
            else unsigned_decimal (c :: t)
        | [] => unsigned_decimal (c :: t)
        end
  end.

Definition Number (s : string) : float :=
  StringToNumber (list_ascii_of_string s).

End JS.

Local Open Scope float_scope.

(** ** [parseMargin] *)

(** The object literal [{ top, right, bottom, left }].  The handler's
    [undockedMargin] is an object of the same shape, holding the four
    absolute bounds of the undocked area. *)
Record Margin : Set := mkMargin {
  top : float;
  right : float;
  bottom : float;
  left : float
}.

(** Field assignments [margin.top = v] and the like. *)
Definition set_top (v : float) (m : Margin) : Margin :=
  mkMargin v (right m) (bottom m) (left m).
Definition set_right (v : float) (m : Margin) : Margin :=
  mkMargin (top m) v (bottom m) (left m).
Definition set_bottom (v : float) (m : Margin) : Margin :=
  mkMargin (top m) (right m) v (left m).
Definition set_left (v : float) (m : Margin) : Margin :=
  mkMargin (top m) (right m) (bottom m) v.

(** The body of [if (text) { ... }]: [parts] is [text.split(',')], and
    the [switch (parts.length)] is the match on the shape of the list
    ([parts[i]] is its [i]-th element); the [default] branch does nothing
    unless [parts.length >= 4]. *)
Definition parseParts (parts : list string) (margin : Margin) : Margin :=
  match parts with
  | [p0] =>
      let marginAll := JS.Number p0 in
      if negb (JS.isNaN marginAll)
      then set_left marginAll
             (set_bottom marginAll (set_right marginAll (set_top marginAll margin)))
      else margin
  | [p0; p1] =>
      let marginTopBottom := JS.Number p0 in
      let marginLeftRight := JS.Number p1 in
      let margin :=
        if negb (JS.isNaN marginTopBottom)
        then set_bottom marginTopBottom (set_top marginTopBottom margin)
        else margin in
      if negb (JS.isNaN marginLeftRight)
      then set_left marginLeftRight (set_right marginLeftRight margin)
      else margin
  | [p0; p1; p2] =>
      let marginTop := JS.Number p0 in
      let marginLeftRight := JS.Number p1 in
      let marginBottom := JS.Number p2 in
      let margin :=
        if negb (JS.isNaN marginTop) then set_top marginTop margin else margin in
      let margin :=
        if negb (JS.isNaN marginLeftRight)
        then set_left marginLeftRight (set_right marginLeftRight margin)
        else margin in
      if negb (JS.isNaN marginBottom) then set_bottom marginBottom margin
      else margin
  | p0 :: p1 :: p2 :: p3 :: _ =>
      let marginTop := JS.Number p0 in
      let marginRight := JS.Number p1 in
      let marginBottom := JS.Number p2 in
      let marginLeft := JS.Number p3 in
      let margin :=
        if negb (JS.isNaN marginTop) then set_top marginTop margin else margin in
      let margin :=
        if negb (JS.isNaN marginRight) then set_right marginRight margin
        else margin in
      let margin :=
        if negb (JS.isNaN marginBottom) then set_bottom marginBottom margin
        else margin in
      if negb (JS.isNaN marginLeft) then set_left marginLeft margin else margin
  | [] => margin
  end.

Definition parseMargin (text : option string) : Margin :=
  let margin := mkMargin 0 0 0 0 in
  match text with
  | Some s =>
      if JS.truthy text then parseParts (JS.split "," s) margin else margin
  | None => margin
  end.

(** ** The children and what the handler does to them *)

(** A child element: its identity as a node, and its attributes, which
    [$child.attr(name)] reads ([undefined] when the attribute is absent). *)
Record Child : Set := mkChild {
  node : nat;
  attributes : list (string * string)
}.

Fixpoint lookup (name : string) (l : list (string * string)) : option string :=
  match l with
  | (k, v) :: l' => if String.eqb k name then Some v else lookup name l'
  | [] => None
  end.

Definition attr (child : Child) (name : string) : option string :=
  lookup name (attributes child).

(** What the handler does to the outside, in the order it does it. *)
Inductive Effect : Set :=
| console_log (msg : string)
| call_positionChild (child : nat) (x y width height : float).

(** What [positionChild] leaves on a child: the [transform] attribute
    (the two numbers of ['translate(x,y)']) and the [width] and [height]
    of its isolate scope. *)
Record Placed : Set := mkPlaced {
  transform : option (float * float);
  scope_width : option float;
  scope_height : option float
}.

Definition DOM : Set := nat -> Placed.

Definition positionChild (child : nat) (x y width height : float) (dom : DOM)
  : DOM :=
  fun n =>
    if Nat.eqb n child then
      {| transform :=
           if JS.strict_neq x 0 || JS.strict_neq y 0 then Some (x, y)
           else transform (dom n);
         scope_width := Some width;
         scope_height := Some height |}
    else dom n.

(** The console and the document after a run of effects. *)
Definition perform (w : list string * DOM) (e : Effect) : list string * DOM :=
  match e with
  | console_log msg => (fst w ++ [msg], snd w)
  | call_positionChild child x y width height =>
      (fst w, positionChild child x y width height (snd w))
  end.

(** ** The ['bnl-chart-render'] handler *)

(** The handler's variables: [x], [y], [width], [height], the list
    [undocked] of [{ child, childMargin }] objects, [undockedMargin], and
    the effects so far. *)
Record Locals : Set := mkLocals {
  x : float;
  y : float;
  width : float;
  height : float;
  undocked : list (nat * Margin);
  undockedMargin : Margin;
  effects : list Effect
}.

Definition with_undockedMargin (m : Margin) (st : Locals) : Locals :=
  mkLocals (x st) (y st) (width st) (height st) (undocked st) m (effects st).

Definition push_undocked (e : nat * Margin) (st : Locals) : Locals :=
  mkLocals (x st) (y st) (width st) (height st) (undocked st ++ [e])
    (undockedMargin st) (effects st).

Definition emit (e : Effect) (st : Locals) : Locals :=
  mkLocals (x st) (y st) (width st) (height st) (undocked st)
    (undockedMargin st) (effects st ++ [e]).

(** The variables of one iteration that the [switch] may reassign. *)
Record ChildVars : Set := mkChildVars {
  childX : float;
  childY : float;
  childWidth : float;
  childHeight : float;
  dock : option string
}.

Definition dquote : string := String "034"%char EmptyString.

Definition unsupported_dock (dock : string) : string :=
  "The dock attribute " ++ dquote ++ dock ++ dquote
  ++ " is not supported by bnl-docked-layout. The element will be treated as undocked.".

(** [switch (dock) { ... }]. *)
Definition dock_switch (d : string) (childMargin : Margin)
    (childDockHeight childDockWidth : float) (st : Locals) (v : ChildVars)
  : Locals * ChildVars :=
  let um := undockedMargin st in
  if String.eqb d "top" then
    (with_undockedMargin
       (set_top (JS.Math_max (y st + childDockHeight) (top um)) um) st,
     mkChildVars (childX v) (childY v)
       (childWidth v - (left childMargin + right childMargin))
       (childHeight v) (dock v))
  else if String.eqb d "right" then
    (with_undockedMargin
       (set_right (JS.Math_min (width st - childDockWidth) (right um)) um) st,
     mkChildVars (width st - childDockWidth) (childY v)
       (childWidth v)
       (childHeight v - (top childMargin + bottom childMargin)) (dock v))
  else if String.eqb d "bottom" then
    (with_undockedMargin
       (set_bottom (JS.Math_min (height st - childDockHeight) (bottom um)) um) st,
     mkChildVars (childX v) (height st - childDockHeight)
       (childWidth v - (left childMargin + right childMargin))
       (childHeight v) (dock v))
  else if String.eqb d "left" then
    (with_undockedMargin
       (set_left (JS.Math_max (x st + childDockWidth) (left um)) um) st,
     mkChildVars (childX v) (childY v) (childWidth v)
       (childHeight v - (top childMargin + bottom childMargin)) (dock v))
  else
    (emit (console_log (unsupported_dock d)) st,
     mkChildVars (childX v) (childY v) (childWidth v) (childHeight v) None).

(** [$child.attr(name) ? Number($child.attr(name)) : fallback]. *)
Definition attr_number_or (child : Child) (name : string) (fallback : float)
  : float :=
  match attr child name with
  | Some s => if JS.truthy (Some s) then JS.Number s else fallback
  | None => fallback
  end.

(** [childX], [childY], [childWidth], [childHeight] and [dock] as the
    iteration first sets them. *)
Definition child_vars (st : Locals) (childMargin : Margin) (child : Child)
  : ChildVars :=
  mkChildVars
    (x st + left childMargin)
    (y st + top childMargin)
    (attr_number_or child "width" (width st))
    (attr_number_or child "height" (height st))
    (attr child "dock").

Definition childDockHeight (childMargin : Margin) (v : ChildVars) : float :=
  top childMargin + childHeight v + bottom childMargin.

Definition childDockWidth (childMargin : Margin) (v : ChildVars) : float :=
  left childMargin + childWidth v + right childMargin.

(** The body of [$.each($($element).children(), function (index, child) ...)]. *)
Definition each_child (st : Locals) (child : Child) : Locals :=
  let childMargin := parseMargin (attr child "margin") in
  let v := child_vars st childMargin child in
  let dockHeight := childDockHeight childMargin v in
  let dockWidth := childDockWidth childMargin v in
  let '(st, v) :=
    match dock v with
    | Some d =>
        if JS.truthy (Some d)
        then dock_switch d childMargin dockHeight dockWidth st v
        else (st, v)
    | None => (st, v)
    end in
  if JS.truthy (dock v)
  then emit (call_positionChild (node child) (childX v) (childY v)
               (childWidth v) (childHeight v)) st
  else push_undocked (node child, childMargin) st.

(** The body of [for (var i = 0; i < undocked.length; i++)]. *)
Definition position_undocked (st : Locals) (u : nat * Margin) : Locals :=
  let child := fst u in
  let childMargin := snd u in
  let um := undockedMargin st in
  let childX := left um + left childMargin in
  let childY := top um + top childMargin in
  let childWidth := (right um - right childMargin) - childX in
  let childHeight := (bottom um - bottom childMargin) - childY in
  emit (call_positionChild child childX childY childWidth childHeight) st.

(** What the handler reads besides the children: [$scope.$id] (as it
    prints), [$scope.width] and [$scope.height] ([undefined] until a
    parent layout sets them), and the size of the owner [svg] element. *)
Record Host : Set := mkHost {
  scope_id : string;
  host_width : option float;
  host_height : option float;
  clientWidth : float;
  clientHeight : float
}.

(** [v ? v : other] for a number or [undefined]. *)
Definition or_else (v : option float) (other : float) : float :=
  match v with
  | Some n => if JS.truthy_number n then n else other
  | None => other
  end.

(** The variables as the handler initialises them. *)
Definition initial (h : Host) : Locals :=
  let width := or_else (host_width h) (clientWidth h) in
  let height := or_else (host_height h) (clientHeight h) in
  mkLocals 0 0 width height []
    (mkMargin 0 width height 0)
    [console_log ("bnlDockedLayout render:" ++ scope_id h)].

(** The first loop: every child in turn. *)
Definition docked_pass (st : Locals) (children : list Child) : Locals :=
  fold_left each_child children st.

(** The second loop: every entry of [undocked] in turn. *)
Definition undocked_pass (st : Locals) : Locals :=
  fold_left position_undocked (undocked st) st.

(** The whole handler: the variables when it returns. *)
Definition render (h : Host) (children : list Child) : Locals :=
  undocked_pass (docked_pass (initial h) children).

(** The [positionChild] calls among the effects, in order: the child and
    the rectangle [(x, y, width, height)] it is given. *)
Record Rect : Set := mkRect {
  rect_x : float;
  rect_y : float;
  rect_width : float;
  rect_height : float
}.

Fixpoint placements (es : list Effect) : list (nat * Rect) :=
  match es with
  | console_log _ :: es' => placements es'
  | call_positionChild c x y w h :: es' => (c, mkRect x y w h) :: placements es'
  | [] => []
  end.

Fixpoint console (es : list Effect) : list string :=
  match es with
  | console_log msg :: es' => msg :: console es'
  | call_positionChild _ _ _ _ _ :: es' => console es'
  | [] => []
  end.

(** ** The specification's reading of the same steps *)

(** The four dock sides a child may declare. *)
Inductive Dock : Set := dock_top | dock_right | dock_bottom | dock_left.

Definition dock_name (d : Dock) : string :=
  match d with
  | dock_top => "top"
  | dock_right => "right"
  | dock_bottom => "bottom"
  | dock_left => "left"
  end.

(** The side a [dock] attribute names, if it names one. *)
Definition recognized (dock : option string) : option Dock :=
  match dock with
  | Some d =>
      if String.eqb d "top" then Some dock_top
      else if String.eqb d "right" then Some dock_right
      else if String.eqb d "bottom" then Some dock_bottom
      else if String.eqb d "left" then Some dock_left
      else None
  | None => None
  end.

Definition dock_of (child : Child) : option Dock :=
  recognized (attr child "dock").

Definition is_docked (child : Child) : bool :=
  match dock_of child with Some _ => true | None => false end.

Definition is_undocked (child : Child) : bool := negb (is_docked child).

(** A [dock] attribute that is a non-empty string other than the four
    side names. *)
Definition unsupported (child : Child) : option string :=
  match attr child "dock", dock_of child with
  | Some (String c d), None => Some (String c d)
  | _, _ => None
  end.

(** The specification's docking rule (section 4.2, steps 4 to 6), for a
    child with margin [margin] and pre-dock size [childWidth] by
    [childHeight]: the new frame and the child's rectangle. *)
Definition spec_dock (x y width height : float) (frame margin : Margin)
    (childWidth childHeight : float) (d : Dock) : Margin * Rect :=
  let dockWidth := left margin + childWidth + right margin in
  let dockHeight := top margin + childHeight + bottom margin in
  match d with
  | dock_top =>
      (set_top (JS.Math_max (top frame) (y + dockHeight)) frame,
       mkRect (x + left margin) (y + top margin)
         (childWidth - (left margin + right margin)) childHeight)
  | dock_bottom =>
      (set_bottom (JS.Math_min (bottom frame) (height - dockHeight)) frame,
       mkRect (x + left margin) (height - dockHeight)
         (childWidth - (left margin + right margin)) childHeight)
  | dock_left =>
      (set_left (JS.Math_max (left frame) (x + dockWidth)) frame,
       mkRect (x + left margin) (y + top margin)
         childWidth (childHeight - (top margin + bottom margin)))
  | dock_right =>
      (set_right (JS.Math_min (right frame) (width - dockWidth)) frame,
       mkRect (width - dockWidth) (y + top margin)
         childWidth (childHeight - (top margin + bottom margin)))
  end.

(** The specification's rectangle of an undocked child in the final frame. *)
Definition spec_undocked (frame margin : Margin) : Rect :=
  let childX := left frame + left margin in
  let childY := top frame + top margin in
  let childWidth := (right frame - right margin) - childX in
  let childHeight := (bottom frame - bottom margin) - childY in
  mkRect childX childY childWidth childHeight.

Definition place (child : nat) (r : Rect) : Effect :=
  call_positionChild child (rect_x r) (rect_y r) (rect_width r) (rect_height r).

(** The value a margin part contributes: its number, or the default 0
    when it is not one. *)
Definition part_value (p : string) : float :=
  if JS.isNaN (JS.Number p) then 0 else JS.Number p.

(** The specification's arity table over the parts of a non-empty text. *)
Definition spec_margin (parts : list string) : Margin :=
  match parts with
  | [] => mkMargin 0 0 0 0
  | [a] => mkMargin (part_value a) (part_value a) (part_value a) (part_value a)
  | [a; b] => mkMargin (part_value a) (part_value b) (part_value a) (part_value b)
  | [a; b; c] => mkMargin (part_value a) (part_value b) (part_value c) (part_value b)
  | a :: b :: c :: d :: _ =>
      mkMargin (part_value a) (part_value b) (part_value c) (part_value d)
  end.

(** The child with its [dock] attribute taken away. *)
Definition without_dock (child : Child) : Child :=
  mkChild (node child)
    (filter (fun kv => negb (String.eqb (fst kv) "dock")) (attributes child)).

(** The child as the layout treats it: an unsupported [dock] dropped. *)
Definition degrade (child : Child) : Child :=
  match unsupported child with
  | Some _ => without_dock child
  | None => child
  end.

(** A layout host for a parent of the given size, as a nesting layout
    leaves it on the scope. *)
Definition parent (w h : float) : Host :=
  mkHost "1" (Some w) (Some h) 0 0.

(** The layout of [children] in a parent of the given size. *)
Definition layout (w h : float) (children : list Child) : list (nat * Rect) :=
  placements (effects (render (parent w h) children)).

(** ** The order of binary64 values *)

Module FloatOrder.

(** A key that orders the values other than NaN as [SFcompare] does:
    sign class first, then exponent, then mantissa. *)
Definition key (f : spec_float) : option (Z * Z * Z) :=
  match f with
  | S754_nan => None
  | S754_infinity true => Some ((-2)%Z, 0%Z, 0%Z)
  | S754_finite true m e => Some ((-1)%Z, (- e)%Z, Zneg m)
  | S754_zero _ => Some (0%Z, 0%Z, 0%Z)
  | S754_finite false m e => Some (1%Z, e, Zpos m)
  | S754_infinity false => Some (2%Z, 0%Z, 0%Z)
  end.

Definition lex3 (a b : Z * Z * Z) : comparison :=
  let '(a1, a2, a3) := a in
  let '(b1, b2, b3) := b in
  match Z.compare a1 b1 with
  | Eq => match Z.compare a2 b2 with
          | Eq => Z.compare a3 b3
          | c => c
          end
  | c => c
  end.

Definition kcompare (f g : spec_float) : option comparison :=
  match key f, key g with
  | Some a, Some b => Some (lex3 a b)
  | _, _ => None
  end.

(** [a] is at most [b], or [b] is NaN: how a bound moves under [Math.max]. *)
Definition grows (a b : float) : bool :=
  PrimFloat.is_nan b || PrimFloat.leb a b.

(** [b] is at most [a], or [b] is NaN: how a bound moves under [Math.min]. *)
Definition shrinks (a b : float) : bool :=
  PrimFloat.is_nan b || PrimFloat.leb b a.

End FloatOrder.

(** ** Auxiliary notions for the statements below *)

(** What one iteration adds to the effects. *)
Definition step_effects (st : Locals) (child : Child) : list Effect :=
  match dock_of child with
  | Some d =>
      [place (node child)
         (snd (spec_dock (x st) (y st) (width st) (height st)
                 (undockedMargin st) (parseMargin (attr child "margin"))
                 (attr_number_or child "width" (width st))
                 (attr_number_or child "height" (height st)) d))]
  | None =>
      match unsupported child with
      | Some d => [console_log (unsupported_dock d)]
      | None => []
      end
  end.

(** What one iteration adds to [undocked]. *)
Definition step_undocked (child : Child) : list (nat * Margin) :=
  if is_docked child then []
  else [(node child, parseMargin (attr child "margin"))].

(** Top and left have grown, right and bottom have shrunk. *)
Definition tightens (f f' : Margin) : bool :=
  FloatOrder.grows (top f) (top f') && FloatOrder.grows (left f) (left f')
  && FloatOrder.shrinks (right f) (right f')
  && FloatOrder.shrinks (bottom f) (bottom f').

(** The unsupported dock names of the children, in order. *)
Definition unsupported_docks (children : list Child) : list string :=
  flat_map (fun c => match unsupported c with Some d => [d] | None => [] end)
    children.

(** Two runs that agree on everything but the console. *)
Definition same_layout (st st' : Locals) : Prop :=
  x st = x st' /\ y st = y st' /\ width st = width st'
  /\ height st = height st' /\ undocked st = undocked st'
  /\ undockedMargin st = undockedMargin st'
  /\ placements (effects st) = placements (effects st').

(** Two states the frame of the rest of the pass cannot tell apart. *)
Definition same_frame (st st' : Locals) : Prop :=
  x st = x st' /\ y st = y st' /\ width st = width st'
  /\ height st = height st' /\ undockedMargin st = undockedMargin st'.

(** ** Further notions: rank of a number, joined text, nesting *)

(** A rank that orders the values other than NaN as [Math.max] and
    [Math.min] do: as [<] does, with [-0] below [+0]. *)
Definition rank (f : spec_float) : option (Z * Z * Z) :=
  match f with
  | S754_nan => None
  | S754_infinity true => Some ((-2)%Z, 0%Z, 0%Z)
  | S754_finite true m e => Some ((-1)%Z, (- e)%Z, Zneg m)
  | S754_zero true => Some (0%Z, (-1)%Z, 0%Z)
  | S754_zero false => Some (0%Z, 0%Z, 0%Z)
  | S754_finite false m e => Some (1%Z, e, Zpos m)
  | S754_infinity false => Some (2%Z, 0%Z, 0%Z)
  end.

(** [a] is at most [b] in rank; both are numbers. *)
Definition fle (a b : float) : Prop :=
  exists ra rb,
    rank (Prim2SF a) = Some ra /\ rank (Prim2SF b) = Some rb
    /\ FloatOrder.lex3 ra rb <> Gt.

(** The frame after an iteration for [child], from the frame [um] before
    it and the handler's [x], [y], [width], [height]. *)
Definition bump (x0 y0 w h : float) (child : Child) (um : Margin) : Margin :=
  let m := parseMargin (attr child "margin") in
  let dockHeight :=
    top m + attr_number_or child "height" h + bottom m in
  let dockWidth :=
    left m + attr_number_or child "width" w + right m in
  match dock_of child with
  | Some dock_top => set_top (JS.Math_max (y0 + dockHeight) (top um)) um
  | Some dock_right => set_right (JS.Math_min (w - dockWidth) (right um)) um
  | Some dock_bottom => set_bottom (JS.Math_min (h - dockHeight) (bottom um)) um
  | Some dock_left => set_left (JS.Math_max (x0 + dockWidth) (left um)) um
  | None => um
  end.

(** The bound a docked child pushes its side of the frame to. *)
Definition footprint_bound (st : Locals) (child : Child) : float :=
  let m := parseMargin (attr child "margin") in
  let v := child_vars st m child in
  match dock_of child with
  | Some dock_top => y st + childDockHeight m v
  | Some dock_right => width st - childDockWidth m v
  | Some dock_bottom => height st - childDockHeight m v
  | Some dock_left => x st + childDockWidth m v
  | None => 0
  end.

(** The child with its [width] and [height] attributes taken away. *)
Definition without_size (child : Child) : Child :=
  mkChild (node child)
    (filter (fun kv => negb (String.eqb (fst kv) "width"
                             || String.eqb (fst kv) "height"))
       (attributes child)).

Definition ignore_size (child : Child) : Child :=
  if is_docked child then child else without_size child.

(** No comma in the text. *)
Fixpoint comma_free (s : string) : bool :=
  match s with
  | EmptyString => true
  | String c rest => negb (Ascii.eqb c ",") && comma_free rest
  end.

(** [parts.join(',')]. *)
Fixpoint join_commas (parts : list string) : string :=
  match parts with
  | [] => ""
  | [p] => p
  | p :: rest => p ++ "," ++ join_commas rest
  end.

(** What a nested layout reads when it is the child [n] of a layout that
    has run on the document: its scope carries the size [positionChild]
    left there. *)
Definition nested_host (dom : DOM) (n : nat) (id : string) (cw ch : float)
  : Host :=
  mkHost id (scope_width (dom n)) (scope_height (dom n)) cw ch.

(** The document after the handler has run on it. *)
Definition document_after_run (h : Host) (children : list Child) (dom : DOM)
  : DOM :=
  snd (fold_left perform (effects (render h children)) ([], dom)).

(** ** The handler where something it relies on is missing *)

(** The layout element as the handler finds it: [$scope.$id],
    [$scope.width], [$scope.height], and [g.ownerSVGElement] with its
    client size, or [null] when the element is not inside an svg. *)
Record Element : Set := mkElement {
  element_scope_id : string;
  element_width : option float;
  element_height : option float;
  ownerSVGElement : option (float * float)
}.

(** [v ? ... : ...] takes the first branch. *)
Definition truthy_size (v : option float) : bool :=
  match v with
  | Some n => JS.truthy_number n
  | None => false
  end.

(** What the handler reads, when reading it does not throw:
    [svg.clientWidth] and [svg.clientHeight] are read only when
    [$scope.width], respectively [$scope.height], is falsy, and reading
    them on [null] is a TypeError.  The client size is not read when both
    scope sizes are truthy, so any value stands for it then. *)
Definition host_of (e : Element) : option Host :=
  match ownerSVGElement e with
  | Some (cw, ch) =>
      Some (mkHost (element_scope_id e) (element_width e) (element_height e)
              cw ch)
  | None =>
      if truthy_size (element_width e) && truthy_size (element_height e)
      then Some (mkHost (element_scope_id e) (element_width e)
                   (element_height e) 0 0)
      else None
  end.

(** How a run of the handler ends: it returns, or a TypeError stops it;
    either way with the console and the document as they are then. *)
Inductive Outcome : Set :=
| finished (out : list string) (dom : DOM)
| threw (out : list string) (dom : DOM).

Definition outcome_threw (o : Outcome) : bool :=
  match o with finished _ _ => false | threw _ _ => true end.

Definition outcome_console (o : Outcome) : list string :=
  match o with finished c _ => c | threw c _ => c end.

Definition outcome_dom (o : Outcome) : DOM :=
  match o with finished _ d => d | threw _ d => d end.

(** [positionChild] on a document in which [has_scope] tells which nodes
    have an isolate scope: the transform is set first; then
    [isolateScope()] is [undefined] for a node without one and
    [childScope.width = width] throws ([false]). *)
Definition positionChild_checked (has_scope : nat -> bool) (child : nat)
    (x y width height : float) (dom : DOM) : DOM * bool :=
  if has_scope child then (positionChild child x y width height dom, true)
  else
    (fun n =>
       if Nat.eqb n child then
         {| transform :=
              if JS.strict_neq x 0 || JS.strict_neq y 0 then Some (x, y)
              else transform (dom n);
            scope_width := scope_width (dom n);
            scope_height := scope_height (dom n) |}
       else dom n,
     false).

(** The effects performed in order, up to the first that throws. *)
Fixpoint perform_checked (has_scope : nat -> bool) (es : list Effect)
    (out : list string) (dom : DOM) : Outcome :=
  match es with
  | [] => finished out dom
  | console_log msg :: es' => perform_checked has_scope es' (out ++ [msg]) dom
  | call_positionChild child x y width height :: es' =>
      let '(dom', returned) :=
        positionChild_checked has_scope child x y width height dom in
      if returned then perform_checked has_scope es' out dom'
      else threw out dom'
  end.

(** The handler on an element and a document: the render message, then
    the sizes are read, then the two loops. *)
Definition handler (has_scope : nat -> bool) (e : Element)
    (children : list Child) (out : list string) (dom : DOM) : Outcome :=
  match host_of e with
  | Some h => perform_checked has_scope (effects (render h children)) out dom
  | None =>
      threw (out ++ [("bnlDockedLayout render:" ++ element_scope_id e)%string])
        dom
  end.

(** The bound of the frame on the side [d]. *)
Definition side_bound (d : Dock) (F : Margin) : float :=
  match d with
  | dock_top => top F
  | dock_right => right F
  | dock_bottom => bottom F
  | dock_left => left F
  end.

(** ** The definitions at work *)

Example Number_decimal :
  JS.Number "25" = 25 /\ JS.Number " 2.5 " = 2.5 /\ JS.Number "-12.75" = -12.75
  /\ JS.Number "1e3" = 1000 /\ JS.Number ".5" = 0.5 /\ JS.Number "5." = 5
  /\ JS.Number "0.1" = 0x1.999999999999ap-4.
Proof. repeat split; vm_compute; reflexivity. Qed.

Example Number_other :
  JS.Number "" = 0 /\ JS.Number "  " = 0 /\ JS.Number "0x1F" = 31
  /\ JS.Number "Infinity" = PrimFloat.infinity
  /\ JS.Number "1e309" = PrimFloat.infinity
  /\ JS.Number "9007199254740993" = 9007199254740992.
Proof. repeat split; vm_compute; reflexivity. Qed.

Example Number_not_a_number :
  map (fun s => JS.isNaN (JS.Number s))
    ["x"; "5px"; "1,2"; "."; "-"; "1e"; "0x"; "1 2"; "infinity"]
  = [true; true; true; true; true; true; true; true; true].
Proof. vm_compute. reflexivity. Qed.

Example split_commas :
  JS.split "," "1,2,,3" = ["1"; "2"; ""; "3"] /\ JS.split "," "abc" = ["abc"]
  /\ JS.split "," "," = [""; ""].
Proof. repeat split. Qed.

Example Math_max_zeros :
  JS.Math_max (-0) 0 = 0 /\ JS.Math_max 0 (-0) = 0
  /\ JS.Math_min 0 (-0) = (-0) /\ JS.Math_min (-0) 0 = (-0)
  /\ JS.Math_max 3 PrimFloat.nan = PrimFloat.nan
  /\ JS.Math_min PrimFloat.neg_infinity 3 = PrimFloat.neg_infinity.
Proof. repeat split. Qed.

Example parseMargin_empty_part :
  parseMargin (Some "1,,3") = mkMargin 1 0 3 0.
Proof. vm_compute. reflexivity. Qed.

(** A parent 200x100 with a child docked to the top, 20 high: the child
    gets (0,0,200,20) and the frame starts at 20. *)
Example scenario_top :
  let st := render (parent 200 100)
              [mkChild 1 [("dock", "top"); ("height", "20")]] in
  placements (effects st) = [(1%nat, mkRect 0 0 200 20)]
  /\ undockedMargin st = mkMargin 20 200 100 0.
Proof. split; vm_compute; reflexivity. Qed.

(** The layout of the usage note: an axis docked left with a bottom
    margin, an axis docked bottom, and the area in what is left. *)
Example scenario_usage :
  layout 400 300
    [mkChild 1 [("dock", "left"); ("width", "25"); ("margin", "0,0,25,0")];
     mkChild 2 [("dock", "bottom"); ("height", "25")];
     mkChild 3 []]
  = [(1%nat, mkRect 0 0 25 275); (2%nat, mkRect 0 275 400 25);
     (3%nat, mkRect 25 0 375 275)].
Proof. vm_compute. reflexivity. Qed.

(** ** Facts about binary64 comparison *)

Lemma SFcompare_key f g : SFcompare f g = FloatOrder.kcompare f g.
Proof.
  unfold FloatOrder.kcompare.
  destruct f as [[]|[]| |[] m1 e1], g as [[]|[]| |[] m2 e2]; cbn; try reflexivity.
  rewrite Z.compare_opp, (Z.compare_antisym e1 e2).
  destruct (e1 ?= e2)%Z; reflexivity.
Qed.

Lemma lex3_refl a : FloatOrder.lex3 a a = Eq.
Proof.
  destruct a as [[a1 a2] a3]. cbn. now rewrite !Z.compare_refl.
Qed.

Lemma lex3_eq a b : FloatOrder.lex3 a b = Eq -> a = b.
Proof.
  destruct a as [[a1 a2] a3], b as [[b1 b2] b3]. cbn.
  destruct (Z.compare_spec a1 b1); try discriminate.
  destruct (Z.compare_spec a2 b2); try discriminate.
  destruct (Z.compare_spec a3 b3); try discriminate.
  now subst.
Qed.

Lemma lex3_antisym a b : FloatOrder.lex3 b a = CompOpp (FloatOrder.lex3 a b).
Proof.
  destruct a as [[a1 a2] a3], b as [[b1 b2] b3]. cbn.
  rewrite (Z.compare_antisym a1 b1), (Z.compare_antisym a2 b2),
    (Z.compare_antisym a3 b3).
  destruct (a1 ?= b1)%Z, (a2 ?= b2)%Z, (a3 ?= b3)%Z; reflexivity.
Qed.

Lemma lex3_le_trans a b c :
  FloatOrder.lex3 a b <> Gt -> FloatOrder.lex3 b c <> Gt ->
  FloatOrder.lex3 a c <> Gt.
Proof.
  destruct a as [[a1 a2] a3], b as [[b1 b2] b3], c as [[c1 c2] c3]. cbn.
  destruct (Z.compare_spec a1 b1), (Z.compare_spec b1 c1),
    (Z.compare_spec a1 c1); try congruence; try lia;
  destruct (Z.compare_spec a2 b2), (Z.compare_spec b2 c2),
    (Z.compare_spec a2 c2); try congruence; try lia;
  destruct (Z.compare_spec a3 b3), (Z.compare_spec b3 c3),
    (Z.compare_spec a3 c3); try congruence; lia.
Qed.

(** Two values with the same key are the same value, or both are zeros. *)
Lemma key_inj f g k :
  FloatOrder.key f = Some k -> FloatOrder.key g = Some k ->
  f = g \/ (exists s t, f = S754_zero s /\ g = S754_zero t).
Proof.
  destruct f as [s|[]| |[] m1 e1], g as [t|[]| |[] m2 e2]; cbn;
    intros Hf Hg; rewrite <- Hf in Hg; try discriminate;
    try (left; reflexivity).
  - right. now exists s, t.
  - injection Hg as He Hm. left. f_equal; lia.
  - injection Hg as He Hm. left. now subst.
Qed.

(** *** The primitive comparisons through the key *)

Lemma is_nan_key a :
  PrimFloat.is_nan a =
  match FloatOrder.key (Prim2SF a) with None => true | Some _ => false end.
Proof.
  unfold PrimFloat.is_nan. rewrite FloatAxioms.eqb_spec. unfold SFeqb.
  rewrite SFcompare_key. unfold FloatOrder.kcompare.
  destruct (FloatOrder.key (Prim2SF a)) as [k|]; [|reflexivity].
  now rewrite lex3_refl.
Qed.

Lemma ltb_key a b :
  PrimFloat.ltb a b =
  match FloatOrder.kcompare (Prim2SF a) (Prim2SF b) with
  | Some Lt => true
  | _ => false
  end.
Proof. rewrite FloatAxioms.ltb_spec. unfold SFltb. now rewrite SFcompare_key. Qed.

Lemma leb_key a b :
  PrimFloat.leb a b =
  match FloatOrder.kcompare (Prim2SF a) (Prim2SF b) with
  | Some (Lt | Eq) => true
  | _ => false
  end.
Proof. rewrite FloatAxioms.leb_spec. unfold SFleb. now rewrite SFcompare_key. Qed.

Ltac to_keys :=
  unfold FloatOrder.grows, FloatOrder.shrinks in *;
  rewrite ?is_nan_key, ?ltb_key, ?leb_key in *;
  unfold FloatOrder.kcompare in *.

Lemma zero_cases a s :
  Prim2SF a = S754_zero s -> a = PrimFloat.zero \/ a = PrimFloat.neg_zero.
Proof.
  intros H.
  assert (E : a = SF2Prim (S754_zero s))
    by (rewrite <- H; symmetry; apply SF2Prim_Prim2SF).
  destruct s; cbn in E; auto.
Qed.

(** Two numbers neither of which is below the other are the same number,
    or they are zeros. *)
Lemma same_key_cases a b k :
  FloatOrder.key (Prim2SF a) = Some k -> FloatOrder.key (Prim2SF b) = Some k ->
  a = b \/ ((a = PrimFloat.zero \/ a = PrimFloat.neg_zero)
           /\ (b = PrimFloat.zero \/ b = PrimFloat.neg_zero)).
Proof.
  intros Ha Hb. destruct (key_inj _ _ _ Ha Hb) as [E | (s & t & Es & Et)].
  - left. now apply Prim2SF_inj.
  - right. split; eauto using zero_cases.
Qed.

Lemma Math_max_comm a b : JS.Math_max a b = JS.Math_max b a.
Proof.
  unfold JS.Math_max. rewrite (orb_comm (PrimFloat.is_nan b)).
  destruct (PrimFloat.is_nan a || PrimFloat.is_nan b) eqn:N; [reflexivity|].
  apply orb_false_elim in N as [Na Nb]. revert Na Nb.
  rewrite !is_nan_key, !ltb_key. unfold FloatOrder.kcompare.
  destruct (FloatOrder.key (Prim2SF a)) as [ka|] eqn:Ka; [|discriminate].
  destruct (FloatOrder.key (Prim2SF b)) as [kb|] eqn:Kb; [|discriminate].
  intros _ _. rewrite (lex3_antisym ka kb).
  destruct (FloatOrder.lex3 ka kb) eqn:L; cbn; try reflexivity.
  apply lex3_eq in L. subst kb.
  destruct (same_key_cases _ _ _ Ka Kb) as [E | [[E1|E1] [E2|E2]]];
    subst; reflexivity.
Qed.

Lemma Math_min_comm a b : JS.Math_min a b = JS.Math_min b a.
Proof.
  unfold JS.Math_min. rewrite (orb_comm (PrimFloat.is_nan b)).
  destruct (PrimFloat.is_nan a || PrimFloat.is_nan b) eqn:N; [reflexivity|].
  apply orb_false_elim in N as [Na Nb]. revert Na Nb.
  rewrite !is_nan_key, !ltb_key. unfold FloatOrder.kcompare.
  destruct (FloatOrder.key (Prim2SF a)) as [ka|] eqn:Ka; [|discriminate].
  destruct (FloatOrder.key (Prim2SF b)) as [kb|] eqn:Kb; [|discriminate].
  intros _ _. rewrite (lex3_antisym ka kb).
  destruct (FloatOrder.lex3 ka kb) eqn:L; cbn; try reflexivity.
  apply lex3_eq in L. subst kb.
  destruct (same_key_cases _ _ _ Ka Kb) as [E | [[E1|E1] [E2|E2]]];
    subst; reflexivity.
Qed.

(** A bound replaced by [Math.max] of something and itself has grown. *)
Lemma grows_Math_max a b : FloatOrder.grows b (JS.Math_max a b) = true.
Proof.
  unfold JS.Math_max, FloatOrder.grows.
  destruct (PrimFloat.is_nan a || PrimFloat.is_nan b) eqn:N; [reflexivity|].
  apply orb_false_elim in N as [Na Nb]. revert Na Nb.
  rewrite !ltb_key.
  assert (Hif : forall (c : bool) (u v : float),
             PrimFloat.is_nan u = false -> PrimFloat.is_nan v = false ->
             PrimFloat.is_nan (if c then u else v) = false)
    by (now intros []).
  intros Na Nb.
  assert (Hleb : forall u, PrimFloat.is_nan u = false ->
             PrimFloat.is_nan u || PrimFloat.leb b u =
             PrimFloat.leb b u) by (now intros u ->).
  rewrite Hleb by (repeat apply Hif; assumption). clear Hleb Hif.
  revert Na Nb. rewrite !is_nan_key. unfold FloatOrder.kcompare.
  destruct (FloatOrder.key (Prim2SF a)) as [ka|] eqn:Ka; [|discriminate].
  destruct (FloatOrder.key (Prim2SF b)) as [kb|] eqn:Kb; [|discriminate].
  intros _ _. rewrite (lex3_antisym ka kb).
  destruct (FloatOrder.lex3 ka kb) eqn:L; cbn.
  - apply lex3_eq in L. subst kb.
    destruct (PrimFloat.Leibniz.eqb a PrimFloat.neg_zero);
      rewrite leb_key; unfold FloatOrder.kcompare; rewrite ?Ka, ?Kb;
      now rewrite lex3_refl.
  - rewrite leb_key; unfold FloatOrder.kcompare; rewrite Kb.
    now rewrite lex3_refl.
  - rewrite leb_key; unfold FloatOrder.kcompare; rewrite Ka, Kb.
    now rewrite (lex3_antisym ka kb), L.
Qed.

(** A bound replaced by [Math.min] of something and itself has shrunk. *)
Lemma shrinks_Math_min a b : FloatOrder.shrinks b (JS.Math_min a b) = true.
Proof.
  unfold JS.Math_min, FloatOrder.shrinks.
  destruct (PrimFloat.is_nan a || PrimFloat.is_nan b) eqn:N; [reflexivity|].
  apply orb_false_elim in N as [Na Nb]. revert Na Nb.
  rewrite !ltb_key.
  assert (Hif : forall (c : bool) (u v : float),
             PrimFloat.is_nan u = false -> PrimFloat.is_nan v = false ->
             PrimFloat.is_nan (if c then u else v) = false)
    by (now intros []).
  intros Na Nb.
  assert (Hleb : forall u, PrimFloat.is_nan u = false ->
             PrimFloat.is_nan u || PrimFloat.leb u b =
             PrimFloat.leb u b) by (now intros u ->).
  rewrite Hleb by (repeat apply Hif; assumption). clear Hleb Hif.
  revert Na Nb. rewrite !is_nan_key. unfold FloatOrder.kcompare.
  destruct (FloatOrder.key (Prim2SF a)) as [ka|] eqn:Ka; [|discriminate].
  destruct (FloatOrder.key (Prim2SF b)) as [kb|] eqn:Kb; [|discriminate].
  intros _ _. rewrite (lex3_antisym ka kb).
  destruct (FloatOrder.lex3 ka kb) eqn:L; cbn.
  - apply lex3_eq in L. subst kb.
    destruct (PrimFloat.Leibniz.eqb a PrimFloat.neg_zero);
      rewrite leb_key; unfold FloatOrder.kcompare; rewrite ?Ka, ?Kb;
      now rewrite lex3_refl.
  - rewrite leb_key; unfold FloatOrder.kcompare; rewrite Ka, Kb.
    now rewrite L.
  - rewrite leb_key; unfold FloatOrder.kcompare; rewrite Kb.
    now rewrite lex3_refl.
Qed.

Lemma grows_refl a : FloatOrder.grows a a = true.
Proof.
  to_keys. destruct (FloatOrder.key (Prim2SF a)); [|reflexivity].
  now rewrite lex3_refl.
Qed.

Lemma grows_trans a b c :
  FloatOrder.grows a b = true -> FloatOrder.grows b c = true ->
  FloatOrder.grows a c = true.
Proof.
  to_keys.
  destruct (FloatOrder.key (Prim2SF a)) as [ka|],
    (FloatOrder.key (Prim2SF b)) as [kb|],
    (FloatOrder.key (Prim2SF c)) as [kc|]; cbn; try easy.
  intros H1 H2. pose proof (lex3_le_trans ka kb kc) as T.
  destruct (FloatOrder.lex3 ka kb), (FloatOrder.lex3 kb kc),
    (FloatOrder.lex3 ka kc); try easy; exfalso; apply T; easy.
Qed.

(** "Never decreases": the later value is not below the earlier one. *)
Lemma grows_not_below a b :
  FloatOrder.grows a b = true -> PrimFloat.ltb b a = false.
Proof.
  to_keys.
  destruct (FloatOrder.key (Prim2SF a)) as [ka|],
    (FloatOrder.key (Prim2SF b)) as [kb|]; cbn; try easy.
  rewrite (lex3_antisym ka kb). now destruct (FloatOrder.lex3 ka kb).
Qed.

Lemma shrinks_refl a : FloatOrder.shrinks a a = true.
Proof. exact (grows_refl a). Qed.

Lemma shrinks_trans a b c :
  FloatOrder.shrinks a b = true -> FloatOrder.shrinks b c = true ->
  FloatOrder.shrinks a c = true.
Proof.
  to_keys.
  destruct (FloatOrder.key (Prim2SF a)) as [ka|],
    (FloatOrder.key (Prim2SF b)) as [kb|],
    (FloatOrder.key (Prim2SF c)) as [kc|]; cbn; try easy.
  intros H1 H2. pose proof (lex3_le_trans kc kb ka) as T.
  destruct (FloatOrder.lex3 kb ka), (FloatOrder.lex3 kc kb),
    (FloatOrder.lex3 kc ka); try easy; exfalso; apply T; easy.
Qed.

(** "Never increases": the later value is not above the earlier one. *)
Lemma shrinks_not_above a b :
  FloatOrder.shrinks a b = true -> PrimFloat.ltb a b = false.
Proof.
  to_keys.
  destruct (FloatOrder.key (Prim2SF a)) as [ka|],
    (FloatOrder.key (Prim2SF b)) as [kb|]; cbn; try easy.
  rewrite (lex3_antisym kb ka). now destruct (FloatOrder.lex3 kb ka).
Qed.

(** ** One iteration of the first loop *)

Lemma recognized_name s d : recognized (Some s) = Some d -> s = dock_name d.
Proof.
  unfold recognized.
  destruct (String.eqb_spec s "top"); [intros [= <-]; assumption|].
  destruct (String.eqb_spec s "right"); [intros [= <-]; assumption|].
  destruct (String.eqb_spec s "bottom"); [intros [= <-]; assumption|].
  destruct (String.eqb_spec s "left"); [intros [= <-]; assumption|].
  discriminate.
Qed.

Lemma dock_of_attr child d :
  dock_of child = Some d -> attr child "dock" = Some (dock_name d).
Proof.
  unfold dock_of. destruct (attr child "dock") as [s|]; [|discriminate].
  intros H. now rewrite (recognized_name _ _ H).
Qed.

Lemma attr_dock_of child d :
  attr child "dock" = Some (dock_name d) -> dock_of child = Some d.
Proof. unfold dock_of. intros ->. now destruct d. Qed.

(** A child docked to a side: the frame and the rectangle are the
    specification's, and the rectangle is handed over at once. *)
Lemma each_child_recognized st child d :
  dock_of child = Some d ->
  let R := spec_dock (x st) (y st) (width st) (height st) (undockedMargin st)
             (parseMargin (attr child "margin"))
             (attr_number_or child "width" (width st))
             (attr_number_or child "height" (height st)) d in
  each_child st child =
  emit (place (node child) (snd R)) (with_undockedMargin (fst R) st).
Proof.
  intros H. apply dock_of_attr in H.
  unfold each_child, child_vars. cbn [dock]. rewrite H.
  destruct d; cbn;
    rewrite ?(Math_max_comm (top (undockedMargin st))),
      ?(Math_max_comm (left (undockedMargin st))),
      ?(Math_min_comm (right (undockedMargin st))),
      ?(Math_min_comm (bottom (undockedMargin st))); reflexivity.
Qed.

(** Any other child: a warning when its [dock] is an unsupported name, and
    the child is queued with its margin. *)
Lemma each_child_deferred st child :
  dock_of child = None ->
  each_child st child =
  push_undocked (node child, parseMargin (attr child "margin"))
    match unsupported child with
    | Some d => emit (console_log (unsupported_dock d)) st
    | None => st
    end.
Proof.
  unfold unsupported. intros H. rewrite H. revert H.
  unfold dock_of, each_child, child_vars. cbn [dock].
  destruct (attr child "dock") as [[|c s]|]; try reflexivity.
  unfold recognized, dock_switch. cbn [JS.truthy].
  destruct (String.eqb (String c s) "top"); [discriminate|].
  destruct (String.eqb (String c s) "right"); [discriminate|].
  destruct (String.eqb (String c s) "bottom"); [discriminate|].
  destruct (String.eqb (String c s) "left"); [discriminate|].
  reflexivity.
Qed.

(** ** Docked children *)

(** C1. A child with a recognized dock side updates the undocked frame and
    receives its rectangle exactly as the specification's docking rule
    [spec_dock] says: top and left take [Math.max] of the running bound
    and the footprint measured from [y] or [x], right and bottom take
    [Math.min] of the running bound and [width] or [height] less the
    footprint; top and bottom narrow the child by its left and right
    margins, left and right shorten it by its top and bottom margins; the
    position is the margin offset, except that bottom and right move the
    child to [height - dockHeight] and [width - dockWidth].  In a 200x100
    parent a child with dock=bottom, height=20 and margin 0,0,5,0 gets
    y = 75 and height = 20. *)
Theorem docked_child_follows_spec :
  (forall (st : Locals) (child : Child) (d : Dock),
      attr child "dock" = Some (dock_name d) ->
      let margin := parseMargin (attr child "margin") in
      let childWidth := attr_number_or child "width" (width st) in
      let childHeight := attr_number_or child "height" (height st) in
      let R := spec_dock (x st) (y st) (width st) (height st)
                 (undockedMargin st) margin childWidth childHeight d in
      each_child st child =
      emit (place (node child) (snd R)) (with_undockedMargin (fst R) st))
  /\ layout 200 100
       [mkChild 1 [("dock", "bottom"); ("height", "20"); ("margin", "0,0,5,0")]]
     = [(1%nat, mkRect 0 75 200 20)].
Proof.
  split.
  - intros st child d H. cbv zeta.
    now apply each_child_recognized, attr_dock_of.
  - vm_compute. reflexivity.
Qed.

Lemma docked_child_follows_spec_witness :
  let child :=
    mkChild 1 [("dock", "bottom"); ("height", "20"); ("margin", "0,0,5,0")] in
  let st := initial (parent 200 100) in
  attr child "dock" = Some (dock_name dock_bottom)
  /\ each_child st child =
     emit (call_positionChild 1 0 75 200 20)
       (with_undockedMargin (mkMargin 0 200 75 0) st).
Proof.
  intros child st. split; [reflexivity|].
  exact (proj1 docked_child_follows_spec st child dock_bottom eq_refl).
Defined.

(** ** The two loops *)

Lemma placements_app es es' :
  placements (es ++ es') = placements es ++ placements es'.
Proof.
  induction es as [|[msg|c a b w h] es IH]; cbn; [reflexivity|assumption|].
  now rewrite IH.
Qed.

Lemma console_app es es' : console (es ++ es') = console es ++ console es'.
Proof.
  induction es as [|[msg|c a b w h] es IH]; cbn; [reflexivity| |assumption].
  now rewrite IH.
Qed.

Lemma placements_places (f : Child -> Rect) cs :
  placements (map (fun c => place (node c) (f c)) cs)
  = map (fun c => (node c, f c)) cs.
Proof.
  induction cs as [|c cs IH]; cbn; [reflexivity|].
  rewrite IH. now destruct (f c).
Qed.

Lemma console_places (f : Child -> Rect) cs :
  console (map (fun c => place (node c) (f c)) cs) = [].
Proof. induction cs as [|c cs IH]; cbn; [reflexivity|assumption]. Qed.

Lemma each_child_effects st child :
  effects (each_child st child) = effects st ++ step_effects st child.
Proof.
  unfold step_effects. destruct (dock_of child) as [d|] eqn:D.
  - now rewrite (each_child_recognized _ _ _ D).
  - rewrite (each_child_deferred _ _ D).
    destruct (unsupported child); cbn; [reflexivity|].
    now rewrite app_nil_r.
Qed.

Lemma each_child_undocked st child :
  undocked (each_child st child) = undocked st ++ step_undocked child.
Proof.
  unfold step_undocked, is_docked. destruct (dock_of child) as [d|] eqn:D.
  - rewrite (each_child_recognized _ _ _ D). cbn. now rewrite app_nil_r.
  - rewrite (each_child_deferred _ _ D). now destruct (unsupported child).
Qed.

(** No iteration assigns [x], [y], [width] or [height]. *)
Lemma each_child_keeps st child :
  x (each_child st child) = x st /\ y (each_child st child) = y st
  /\ width (each_child st child) = width st
  /\ height (each_child st child) = height st.
Proof.
  destruct (dock_of child) as [d|] eqn:D.
  - now rewrite (each_child_recognized _ _ _ D).
  - rewrite (each_child_deferred _ _ D). now destruct (unsupported child).
Qed.

Lemma docked_pass_cons st c cs :
  docked_pass st (c :: cs) = docked_pass (each_child st c) cs.
Proof. reflexivity. Qed.

Lemma docked_pass_keeps children : forall st,
  x (docked_pass st children) = x st /\ y (docked_pass st children) = y st
  /\ width (docked_pass st children) = width st
  /\ height (docked_pass st children) = height st.
Proof.
  induction children as [|c cs IH]; intros st; [cbn; auto|].
  rewrite docked_pass_cons.
  destruct (IH (each_child st c)) as (-> & -> & -> & ->).
  apply each_child_keeps.
Qed.

Lemma docked_pass_app st cs cs' :
  docked_pass st (cs ++ cs') = docked_pass (docked_pass st cs) cs'.
Proof. apply fold_left_app. Qed.

Lemma docked_pass_undocked children : forall st,
  undocked (docked_pass st children)
  = undocked st
    ++ map (fun c => (node c, parseMargin (attr c "margin")))
         (filter is_undocked children).
Proof.
  induction children as [|c cs IH]; intros st.
  - cbn. now rewrite app_nil_r.
  - rewrite docked_pass_cons. cbn [filter map].
    rewrite IH, each_child_undocked, <- app_assoc. f_equal.
    unfold step_undocked, is_undocked. now destruct (is_docked c).
Qed.

(** The children handed a rectangle in the first loop are the docked
    ones, in their order. *)
Lemma docked_pass_placed children : forall st,
  map fst (placements (effects (docked_pass st children)))
  = map fst (placements (effects st)) ++ map node (filter is_docked children).
Proof.
  induction children as [|c cs IH]; intros st.
  - cbn. now rewrite app_nil_r.
  - rewrite docked_pass_cons. cbn [filter map].
    rewrite IH, each_child_effects, placements_app, map_app, <- app_assoc.
    f_equal. unfold step_effects, is_docked.
    destruct (dock_of c); cbn; [reflexivity|].
    now destruct (unsupported c).
Qed.

(** The second loop hands every queued child its rectangle in the final
    frame and changes nothing else. *)
Lemma position_undocked_fold (l : list (nat * Margin)) : forall st,
  fold_left position_undocked l st
  = mkLocals (x st) (y st) (width st) (height st) (undocked st)
      (undockedMargin st)
      (effects st
       ++ map (fun u => place (fst u) (spec_undocked (undockedMargin st) (snd u)))
            l).
Proof.
  induction l as [|u l IH]; intros st; cbn.
  - rewrite app_nil_r. now destruct st.
  - rewrite IH. cbn. now rewrite <- app_assoc.
Qed.

Lemma is_undocked_attr child :
  is_undocked child =
  match attr child "dock" with
  | Some d =>
      negb (String.eqb d "top" || String.eqb d "right"
            || String.eqb d "bottom" || String.eqb d "left")
  | None => true
  end.
Proof.
  unfold is_undocked, is_docked, dock_of, recognized.
  destruct (attr child "dock") as [d|]; [|reflexivity].
  now destruct (String.eqb d "top"), (String.eqb d "right"),
    (String.eqb d "bottom"), (String.eqb d "left").
Qed.

Lemma render_effects h children :
  let st1 := docked_pass (initial h) children in
  effects (render h children)
  = effects st1
    ++ map (fun c => place (node c)
                       (spec_undocked (undockedMargin st1)
                          (parseMargin (attr c "margin"))))
         (filter is_undocked children).
Proof.
  intros st1. unfold render, undocked_pass. fold st1.
  rewrite position_undocked_fold. cbn [effects]. f_equal.
  unfold st1 at 2. rewrite docked_pass_undocked. cbn [initial undocked app].
  now rewrite map_map.
Qed.

Lemma render_frame h children :
  undockedMargin (render h children)
  = undockedMargin (docked_pass (initial h) children).
Proof.
  unfold render, undocked_pass. now rewrite position_undocked_fold.
Qed.

(** ** Undocked children *)

(** C2. Once every child has been through the first loop, each undocked
    child (no [dock], an empty one, or one that is not a side name) is
    handed, in input order, the rectangle
    x = frame.left + margin.left, y = frame.top + margin.top,
    width = (frame.right - margin.right) - x,
    height = (frame.bottom - margin.bottom) - y
    of the final frame and its own margin.  In a 200x100 parent, a child
    docked left with width 50 gets (0,0,50,100) and an undocked child
    after it gets (50,0,150,100). *)
Theorem undocked_children_fill_frame :
  (forall (h : Host) (children : list Child),
      let st1 := docked_pass (initial h) children in
      let frame := undockedMargin st1 in
      effects (render h children)
      = effects st1
        ++ map (fun c => place (node c)
                           (spec_undocked frame (parseMargin (attr c "margin"))))
             (filter is_undocked children)
      /\ undockedMargin (render h children) = frame)
  /\ (forall child : Child,
         is_undocked child =
         match attr child "dock" with
         | Some d =>
             negb (String.eqb d "top" || String.eqb d "right"
                   || String.eqb d "bottom" || String.eqb d "left")
         | None => true
         end)
  /\ layout 200 100
       [mkChild 1 [("dock", "left"); ("width", "50")]; mkChild 2 []]
     = [(1%nat, mkRect 0 0 50 100); (2%nat, mkRect 50 0 150 100)].
Proof.
  split; [|split].
  - intros h children. cbv zeta. split.
    + apply render_effects.
    + apply render_frame.
  - apply is_undocked_attr.
  - vm_compute. reflexivity.
Qed.

(** ** How the frame moves *)

(** The frame after one iteration, as the source computes it. *)
Lemma each_child_frame st child :
  let m := parseMargin (attr child "margin") in
  let v := child_vars st m child in
  let um := undockedMargin st in
  undockedMargin (each_child st child) =
  match dock_of child with
  | Some dock_top =>
      set_top (JS.Math_max (y st + childDockHeight m v) (top um)) um
  | Some dock_right =>
      set_right (JS.Math_min (width st - childDockWidth m v) (right um)) um
  | Some dock_bottom =>
      set_bottom (JS.Math_min (height st - childDockHeight m v) (bottom um)) um
  | Some dock_left =>
      set_left (JS.Math_max (x st + childDockWidth m v) (left um)) um
  | None => um
  end.
Proof.
  cbv zeta. destruct (dock_of child) as [d|] eqn:D.
  - rewrite (each_child_recognized _ _ _ D).
    destruct d; cbn;
      rewrite ?(Math_max_comm (top (undockedMargin st))),
        ?(Math_max_comm (left (undockedMargin st))),
        ?(Math_min_comm (right (undockedMargin st))),
        ?(Math_min_comm (bottom (undockedMargin st))); reflexivity.
  - rewrite (each_child_deferred _ _ D). now destruct (unsupported child).
Qed.

Lemma tightens_refl f : tightens f f = true.
Proof.
  unfold tightens. now rewrite !grows_refl, !shrinks_refl.
Qed.

Lemma tightens_trans f g k :
  tightens f g = true -> tightens g k = true -> tightens f k = true.
Proof.
  unfold tightens. rewrite !andb_true_iff.
  intros (((T1 & L1) & R1) & B1) (((T2 & L2) & R2) & B2).
  repeat split;
    eauto using grows_trans, shrinks_trans.
Qed.

Lemma each_child_tightens st child :
  tightens (undockedMargin st) (undockedMargin (each_child st child)) = true.
Proof.
  rewrite each_child_frame. cbv zeta.
  destruct (dock_of child) as [[]|]; unfold tightens; cbn;
    rewrite ?grows_Math_max, ?shrinks_Math_min, ?grows_refl, ?shrinks_refl;
    reflexivity.
Qed.

Lemma docked_pass_tightens children : forall st,
  tightens (undockedMargin st) (undockedMargin (docked_pass st children))
  = true.
Proof.
  induction children as [|c cs IH]; intros st.
  - apply tightens_refl.
  - rewrite docked_pass_cons.
    eapply tightens_trans; [apply each_child_tightens | apply IH].
Qed.

Lemma spec_dock_rect_any_frame x0 y0 w h f f' m cw chh d :
  snd (spec_dock x0 y0 w h f m cw chh d)
  = snd (spec_dock x0 y0 w h f' m cw chh d).
Proof. now destruct d. Qed.

(** What a child adds to the effects does not depend on the children
    before it. *)
Lemma step_effects_any_prefix st pre child :
  step_effects (docked_pass st pre) child = step_effects st child.
Proof.
  unfold step_effects.
  destruct (docked_pass_keeps pre st) as (-> & -> & -> & ->).
  destruct (dock_of child); [|reflexivity].
  now rewrite (spec_dock_rect_any_frame _ _ _ _ _ (undockedMargin st)).
Qed.

(** C3. Through the first loop the frame only tightens: between any two
    points of the pass, top and left are never below their earlier value
    and right and bottom never above it (and when the later bound is a
    number the earlier one is at most, respectively at least, it), since
    every update is [Math.max] (top, left) or [Math.min] (right, bottom)
    of the running bound and a value measured from [x], [y], [width] or
    [height].  What a child is handed does not depend on the children before
    it, so children docked to one side overlap: in a 200x100 parent two
    children with dock=top and height=10 both get (0,0,200,10). *)
Theorem frame_only_tightens :
  (forall (st : Locals) (pre post : list Child),
      let fa := undockedMargin (docked_pass st pre) in
      let fb := undockedMargin (docked_pass st (pre ++ post)) in
      (PrimFloat.ltb (top fb) (top fa) = false
       /\ PrimFloat.ltb (left fb) (left fa) = false
       /\ PrimFloat.ltb (right fa) (right fb) = false
       /\ PrimFloat.ltb (bottom fa) (bottom fb) = false)
      /\ (PrimFloat.is_nan (top fb) || PrimFloat.leb (top fa) (top fb) = true
          /\ PrimFloat.is_nan (left fb) || PrimFloat.leb (left fa) (left fb) = true
          /\ PrimFloat.is_nan (right fb) || PrimFloat.leb (right fb) (right fa) = true
          /\ PrimFloat.is_nan (bottom fb) || PrimFloat.leb (bottom fb) (bottom fa) = true))
  /\ (forall (st : Locals) (child : Child),
         let m := parseMargin (attr child "margin") in
         let v := child_vars st m child in
         let um := undockedMargin st in
         undockedMargin (each_child st child) =
         match dock_of child with
         | Some dock_top =>
             set_top (JS.Math_max (y st + childDockHeight m v) (top um)) um
         | Some dock_right =>
             set_right (JS.Math_min (width st - childDockWidth m v) (right um)) um
         | Some dock_bottom =>
             set_bottom (JS.Math_min (height st - childDockHeight m v) (bottom um)) um
         | Some dock_left =>
             set_left (JS.Math_max (x st + childDockWidth m v) (left um)) um
         | None => um
         end)
  /\ (forall (st : Locals) (pre : list Child) (child : Child),
         effects (docked_pass st (pre ++ [child]))
         = effects (docked_pass st pre) ++ step_effects st child)
  /\ layout 200 100
       [mkChild 1 [("dock", "top"); ("height", "10")];
        mkChild 2 [("dock", "top"); ("height", "10")]]
     = [(1%nat, mkRect 0 0 200 10); (2%nat, mkRect 0 0 200 10)].
Proof.
  split; [|split; [|split]].
  - intros st pre post. cbv zeta. rewrite docked_pass_app.
    pose proof (docked_pass_tightens post (docked_pass st pre)) as T.
    unfold tightens in T. rewrite !andb_true_iff in T.
    destruct T as (((T & L) & R) & B).
    split; [|now repeat split].
    repeat split;
      auto using grows_not_below, shrinks_not_above.
  - apply each_child_frame.
  - intros st pre child. rewrite docked_pass_app. cbn [docked_pass fold_left].
    now rewrite each_child_effects, step_effects_any_prefix.
  - vm_compute. reflexivity.
Qed.

(** ** Margins *)

Lemma parseMargin_nonempty c s :
  parseMargin (Some (String c s))
  = parseParts (JS.split "," (String c s)) (mkMargin 0 0 0 0).
Proof. reflexivity. Qed.

(** The guarded assignments of [parseMargin] amount to the arity table,
    each part giving its number or the default. *)
Lemma parseParts_table parts :
  parseParts parts (mkMargin 0 0 0 0) = spec_margin parts.
Proof.
  destruct parts as [|a [|b [|c [|d rest]]]]; cbn; unfold part_value;
    try reflexivity.
  - now destruct (JS.isNaN (JS.Number a)).
  - now destruct (JS.isNaN (JS.Number a)), (JS.isNaN (JS.Number b)).
  - now destruct (JS.isNaN (JS.Number a)), (JS.isNaN (JS.Number b)),
      (JS.isNaN (JS.Number c)).
  - now destruct (JS.isNaN (JS.Number a)), (JS.isNaN (JS.Number b)),
      (JS.isNaN (JS.Number c)), (JS.isNaN (JS.Number d)).
Qed.

Lemma part_value_number p :
  JS.isNaN (JS.Number p) = false -> part_value p = JS.Number p.
Proof. unfold part_value. now intros ->. Qed.

Lemma part_value_not_NaN p : JS.isNaN (part_value p) = false.
Proof.
  unfold part_value. destruct (JS.isNaN (JS.Number p)) eqn:E; [reflexivity|].
  exact E.
Qed.

Lemma parseMargin_text text :
  JS.truthy (Some text) = true ->
  parseMargin (Some text) = spec_margin (JS.split "," text).
Proof.
  destruct text as [|c s]; [discriminate|]. intros _.
  rewrite parseMargin_nonempty. apply parseParts_table.
Qed.

(** C4. [parseMargin] follows the CSS shorthand: no text or the empty
    text gives the all-zero margin; split on commas, one part sets all
    four sides, two parts set top and bottom from the first and left and
    right from the second, three parts set top, left and right, bottom,
    and four or more set top, right, bottom, left from the first four and
    ignore the rest (the parts being numbers). *)
Theorem parseMargin_arity :
  parseMargin None = mkMargin 0 0 0 0
  /\ parseMargin (Some "") = mkMargin 0 0 0 0
  /\ (forall text a,
         JS.truthy (Some text) = true -> JS.split "," text = [a] ->
         JS.isNaN (JS.Number a) = false ->
         parseMargin (Some text)
         = mkMargin (JS.Number a) (JS.Number a) (JS.Number a) (JS.Number a))
  /\ (forall text a b,
         JS.truthy (Some text) = true -> JS.split "," text = [a; b] ->
         JS.isNaN (JS.Number a) = false -> JS.isNaN (JS.Number b) = false ->
         parseMargin (Some text)
         = mkMargin (JS.Number a) (JS.Number b) (JS.Number a) (JS.Number b))
  /\ (forall text a b c,
         JS.truthy (Some text) = true -> JS.split "," text = [a; b; c] ->
         JS.isNaN (JS.Number a) = false -> JS.isNaN (JS.Number b) = false ->
         JS.isNaN (JS.Number c) = false ->
         parseMargin (Some text)
         = mkMargin (JS.Number a) (JS.Number b) (JS.Number c) (JS.Number b))
  /\ (forall text a b c d rest,
         JS.truthy (Some text) = true ->
         JS.split "," text = a :: b :: c :: d :: rest ->
         JS.isNaN (JS.Number a) = false -> JS.isNaN (JS.Number b) = false ->
         JS.isNaN (JS.Number c) = false -> JS.isNaN (JS.Number d) = false ->
         parseMargin (Some text)
         = mkMargin (JS.Number a) (JS.Number b) (JS.Number c) (JS.Number d)).
Proof.
  repeat split; try reflexivity.
  - intros text a T S Na. rewrite (parseMargin_text _ T), S. cbn.
    now rewrite (part_value_number _ Na).
  - intros text a b T S Na Nb. rewrite (parseMargin_text _ T), S. cbn.
    now rewrite (part_value_number _ Na), (part_value_number _ Nb).
  - intros text a b c T S Na Nb Nc. rewrite (parseMargin_text _ T), S. cbn.
    now rewrite (part_value_number _ Na), (part_value_number _ Nb),
      (part_value_number _ Nc).
  - intros text a b c d rest T S Na Nb Nc Nd.
    rewrite (parseMargin_text _ T), S. cbn.
    now rewrite (part_value_number _ Na), (part_value_number _ Nb),
      (part_value_number _ Nc), (part_value_number _ Nd).
Qed.

Lemma parseMargin_arity_witness :
  parseMargin (Some "5") = mkMargin 5 5 5 5
  /\ parseMargin (Some "1,2") = mkMargin 1 2 1 2
  /\ parseMargin (Some "1,2,3") = mkMargin 1 2 3 2
  /\ parseMargin (Some "1,2,3,4") = mkMargin 1 2 3 4
  /\ parseMargin (Some "1,2,3,4,5") = mkMargin 1 2 3 4.
Proof.
  destruct parseMargin_arity as (_ & _ & H1 & H2 & H3 & H4).
  split; [|split; [|split; [|split]]].
  - exact (H1 "5" "5" eq_refl eq_refl eq_refl).
  - exact (H2 "1,2" "1" "2" eq_refl eq_refl eq_refl eq_refl).
  - exact (H3 "1,2,3" "1" "2" "3" eq_refl eq_refl eq_refl eq_refl eq_refl).
  - exact (H4 "1,2,3,4" "1" "2" "3" "4" [] eq_refl eq_refl
             eq_refl eq_refl eq_refl eq_refl).
  - exact (H4 "1,2,3,4,5" "1" "2" "3" "4" ["5"] eq_refl eq_refl
             eq_refl eq_refl eq_refl eq_refl).
Defined.

(** C5. [parseMargin] is fail-soft field by field: for every text the
    result is the arity table in which each part counts as its number,
    or as the default 0 when it is not a number, so a part that is not a
    number leaves just its own fields at 0 and the other parts still
    apply; no field of any result is NaN, and every text has a result.
    [parseMargin("x,2")] is top 0, right 2, bottom 0, left 2. *)
Theorem parseMargin_fail_soft :
  (forall text : option string,
      let m := parseMargin text in
      JS.isNaN (top m) = false /\ JS.isNaN (right m) = false
      /\ JS.isNaN (bottom m) = false /\ JS.isNaN (left m) = false)
  /\ (forall (c : ascii) (s : string),
         parseMargin (Some (String c s))
         = spec_margin (JS.split "," (String c s)))
  /\ (forall p : string,
         part_value p = if JS.isNaN (JS.Number p) then 0 else JS.Number p)
  /\ JS.isNaN (JS.Number "x") = true
  /\ parseMargin (Some "x,2") = mkMargin 0 2 0 2.
Proof.
  split; [|split; [|split; [|split]]].
  - intros [[|c s]|]; cbv zeta; try (repeat split; reflexivity).
    rewrite parseMargin_nonempty, parseParts_table.
    destruct (JS.split "," (String c s)) as [|a [|b [|d [|e rest]]]]; cbn;
      auto using part_value_not_NaN.
  - intros c s. now rewrite parseMargin_nonempty, parseParts_table.
  - reflexivity.
  - vm_compute. reflexivity.
  - vm_compute. reflexivity.
Qed.

(** ** Unsupported dock values *)

Lemma unsupported_attr child d :
  attr child "dock" = Some d -> d <> "" ->
  d <> "top" -> d <> "right" -> d <> "bottom" -> d <> "left" ->
  unsupported child = Some d /\ dock_of child = None.
Proof.
  intros A E T R B L. unfold unsupported, dock_of. rewrite A.
  unfold recognized.
  destruct (String.eqb_spec d "top"); [contradiction|].
  destruct (String.eqb_spec d "right"); [contradiction|].
  destruct (String.eqb_spec d "bottom"); [contradiction|].
  destruct (String.eqb_spec d "left"); [contradiction|].
  now destruct d.
Qed.

Lemma unsupported_undocked child d :
  unsupported child = Some d -> dock_of child = None.
Proof.
  unfold unsupported. destruct (attr child "dock") as [[|]|];
    try discriminate.
  now destruct (dock_of child).
Qed.

Lemma docked_supported child d :
  dock_of child = Some d -> unsupported child = None.
Proof.
  unfold unsupported. intros ->. now destruct (attr child "dock") as [[|]|].
Qed.

Lemma lookup_without_dock name l :
  lookup name (filter (fun kv => negb (String.eqb (fst kv) "dock")) l)
  = if String.eqb name "dock" then None else lookup name l.
Proof.
  induction l as [|[k v] l IH]; cbn [lookup filter fst].
  - now destruct (String.eqb name "dock").
  - destruct (String.eqb_spec k "dock") as [->|K]; cbn [negb lookup].
    + rewrite IH. rewrite (String.eqb_sym "dock" name).
      now destruct (String.eqb name "dock").
    + rewrite IH. destruct (String.eqb_spec k name) as [->|N];
        [|reflexivity].
      destruct (String.eqb_spec name "dock"); [contradiction|reflexivity].
Qed.

Lemma console_step st child :
  console (step_effects st child)
  = match unsupported child with Some d => [unsupported_dock d] | None => [] end.
Proof.
  unfold step_effects. destruct (dock_of child) as [d|] eqn:D.
  - now rewrite (docked_supported _ _ D).
  - now destruct (unsupported child).
Qed.

Lemma docked_pass_console children : forall st,
  console (effects (docked_pass st children))
  = console (effects st) ++ map unsupported_dock (unsupported_docks children).
Proof.
  induction children as [|c cs IH]; intros st.
  - cbn. now rewrite app_nil_r.
  - rewrite docked_pass_cons, IH, each_child_effects, console_app,
      console_step, <- app_assoc.
    f_equal. unfold unsupported_docks. cbn [flat_map].
    rewrite map_app. now destruct (unsupported c).
Qed.

Lemma each_child_same st st' child :
  same_layout st st' -> same_layout (each_child st child) (each_child st' child).
Proof.
  intros (X & Y & W & H & U & F & P).
  destruct (dock_of child) as [d|] eqn:D.
  - rewrite !(each_child_recognized _ _ _ D). unfold same_layout. cbn.
    rewrite !placements_app, X, Y, W, H, U, F, P. now repeat split.
  - rewrite !(each_child_deferred _ _ D). unfold same_layout.
    destruct (unsupported child); cbn;
      rewrite ?placements_app, ?app_nil_r, X, Y, W, H, U, F, P;
      now repeat split.
Qed.

Lemma each_child_degrade st st' child :
  same_layout st st' ->
  same_layout (each_child st child) (each_child st' (degrade child)).
Proof.
  intros S. unfold degrade. destruct (unsupported child) as [d|] eqn:U;
    [|now apply each_child_same].
  pose proof (unsupported_undocked _ _ U) as D.
  assert (A : forall name, attr (without_dock child) name
                           = if String.eqb name "dock" then None
                             else attr child name)
    by (intros name; apply lookup_without_dock).
  assert (D' : dock_of (without_dock child) = None)
    by (unfold dock_of; now rewrite A).
  assert (U' : unsupported (without_dock child) = None)
    by (unfold unsupported; now rewrite A).
  rewrite (each_child_deferred _ _ D), (each_child_deferred _ _ D'), U, U'.
  rewrite (A "margin"). cbn [String.eqb Ascii.eqb Bool.eqb].
  destruct S as (X & Y & W & H & Un & F & P). unfold same_layout. cbn.
  rewrite placements_app, app_nil_r, X, Y, W, H, Un, F, P. now repeat split.
Qed.

Lemma docked_pass_degrade children : forall st st',
  same_layout st st' ->
  same_layout (docked_pass st children) (docked_pass st' (map degrade children)).
Proof.
  induction children as [|c cs IH]; intros st st' S; [exact S|].
  cbn [map]. rewrite !docked_pass_cons. apply IH. now apply each_child_degrade.
Qed.

Lemma undocked_pass_same st st' :
  same_layout st st' -> same_layout (undocked_pass st) (undocked_pass st').
Proof.
  intros (X & Y & W & H & U & F & P). unfold undocked_pass.
  rewrite !position_undocked_fold. unfold same_layout. cbn.
  rewrite !placements_app, X, Y, W, H, U, F, P. now repeat split.
Qed.

Lemma same_layout_refl st : same_layout st st.
Proof. unfold same_layout. now repeat split. Qed.

(** C6. A child whose [dock] is a non-empty string other than the four
    side names adds exactly one warning to the console, leaves the frame
    as it was, is queued as undocked with its margin, and the loop goes
    on; over a whole run the console holds the render message and one
    warning per such child, and the rectangles handed out and the final
    frame are those of the run in which these children have no [dock] at
    all. *)
Theorem unsupported_dock_degrades :
  forall (st : Locals) (child : Child) (d : string),
    attr child "dock" = Some d -> d <> "" ->
    d <> "top" -> d <> "right" -> d <> "bottom" -> d <> "left" ->
    each_child st child
    = push_undocked (node child, parseMargin (attr child "margin"))
        (emit (console_log (unsupported_dock d)) st)
    /\ unsupported child = Some d
    /\ is_undocked child = true
    /\ (forall (h : Host) (children : list Child),
           In child children ->
           In (place (node child)
                 (spec_undocked (undockedMargin (render h children))
                    (parseMargin (attr child "margin"))))
              (effects (render h children)))
    /\ (forall (h : Host) (children : list Child),
           console (effects (render h children))
           = ("bnlDockedLayout render:" ++ scope_id h)%string
               :: map unsupported_dock (unsupported_docks children)
           /\ placements (effects (render h children))
              = placements (effects (render h (map degrade children)))
           /\ undockedMargin (render h children)
              = undockedMargin (render h (map degrade children))).
Proof.
  intros st child d A E T R B L.
  destruct (unsupported_attr _ _ A E T R B L) as [U D].
  assert (I : is_undocked child = true)
    by (unfold is_undocked, is_docked; now rewrite D).
  split; [|split; [|split; [|split]]].
  - now rewrite (each_child_deferred _ _ D), U.
  - exact U.
  - exact I.
  - intros h children C. rewrite render_frame, render_effects. cbv zeta.
    apply in_or_app. right.
    apply (in_map (fun c => place (node c)
                              (spec_undocked
                                 (undockedMargin
                                    (docked_pass (initial h) children))
                                 (parseMargin (attr c "margin"))))).
    apply filter_In. now split.
  - intros h children. split; [|split].
    + rewrite render_effects. cbv zeta.
      rewrite console_app, console_places, app_nil_r, docked_pass_console.
      reflexivity.
    + apply (undocked_pass_same _ _
               (docked_pass_degrade children _ _ (same_layout_refl _))).
    + apply (undocked_pass_same _ _
               (docked_pass_degrade children _ _ (same_layout_refl _))).
Qed.

Lemma unsupported_dock_degrades_witness :
  each_child (initial (parent 200 100)) (mkChild 1 [("dock", "diagonal")])
  = push_undocked (1%nat, mkMargin 0 0 0 0)
      (emit (console_log (unsupported_dock "diagonal"))
         (initial (parent 200 100)))
  /\ layout 200 100 [mkChild 1 [("dock", "diagonal")]]
     = [(1%nat, mkRect 0 0 200 100)].
Proof.
  split; [|vm_compute; reflexivity].
  apply (unsupported_dock_degrades (initial (parent 200 100))
           (mkChild 1 [("dock", "diagonal")]) "diagonal");
    [reflexivity | discriminate ..].
Defined.

(** ** One rectangle per child *)

Lemma filter_split_perm (f : Child -> bool) l :
  Permutation (filter f l ++ filter (fun c => negb (f c)) l) l.
Proof.
  induction l as [|a l IH]; cbn; [constructor|].
  destruct (f a); cbn.
  - now constructor.
  - symmetry. apply Permutation_cons_app. now symmetry.
Qed.

Lemma render_placed h children :
  map fst (placements (effects (render h children)))
  = map node (filter is_docked children)
    ++ map node (filter is_undocked children).
Proof.
  rewrite render_effects. cbv zeta.
  rewrite placements_app, map_app, docked_pass_placed, placements_places,
    map_map.
  reflexivity.
Qed.

Lemma filter_docked_sorted ds us :
  filter is_docked (filter is_docked ds ++ filter is_undocked us)
  = filter is_docked ds
  /\ filter is_undocked (filter is_docked ds ++ filter is_undocked us)
     = filter is_undocked us.
Proof.
  rewrite !filter_app. unfold is_undocked.
  assert (A : forall l, filter is_docked (filter is_docked l) = filter is_docked l).
  { induction l as [|a l IH]; cbn; [reflexivity|].
    destruct (is_docked a) eqn:E; cbn; rewrite ?E, IH; reflexivity. }
  assert (B : forall l, filter is_docked (filter (fun c => negb (is_docked c)) l) = []).
  { induction l as [|a l IH]; cbn; [reflexivity|].
    destruct (is_docked a) eqn:E; cbn; rewrite ?E, IH; reflexivity. }
  assert (C : forall l, filter (fun c => negb (is_docked c)) (filter is_docked l) = []).
  { induction l as [|a l IH]; cbn; [reflexivity|].
    destruct (is_docked a) eqn:E; cbn; rewrite ?E, IH; reflexivity. }
  assert (D : forall l, filter (fun c => negb (is_docked c))
                          (filter (fun c => negb (is_docked c)) l)
                        = filter (fun c => negb (is_docked c)) l).
  { induction l as [|a l IH]; cbn; [reflexivity|].
    destruct (is_docked a) eqn:E; cbn; rewrite ?E, IH; reflexivity. }
  now rewrite A, B, C, D, app_nil_r.
Qed.

Lemma perform_checked_scoped has_scope es : forall out dom,
  (forall n, In n (map fst (placements es)) -> has_scope n = true) ->
  perform_checked has_scope es out dom
  = finished (fst (fold_left perform es (out, dom)))
      (snd (fold_left perform es (out, dom))).
Proof.
  induction es as [|[msg|c a b w h] es IH]; intros out dom S;
    cbn [perform_checked fold_left perform fst snd placements map] in *.
  - reflexivity.
  - now apply IH.
  - unfold positionChild_checked. rewrite (S c) by now left.
    apply IH. intros n I. apply S. now right.
Qed.

(** C7, as the source has it.  When the sizes can be read (the layout is
    inside an svg, or its scope carries a non-zero width and height) and
    every child has an isolate scope, as the directive expects of its
    children, the handler returns, having performed the [positionChild]
    calls of the run in order; these are one per child, each child
    exactly once: the children docked to a side first, in input order,
    then the undocked ones, in input order.  The order is the input order
    when no undocked child comes before a docked one. *)
Theorem one_rectangle_per_child :
  forall (has_scope : nat -> bool) (e : Element) (h : Host)
         (children : list Child) (out0 : list string) (dom : DOM),
    host_of e = Some h ->
    forallb (fun c => has_scope (node c)) children = true ->
    let out := placements (effects (render h children)) in
    handler has_scope e children out0 dom
    = finished
        (fst (fold_left perform (effects (render h children)) (out0, dom)))
        (snd (fold_left perform (effects (render h children)) (out0, dom)))
    /\ map fst out
       = map node (filter is_docked children)
         ++ map node (filter is_undocked children)
    /\ List.length out = List.length children
    /\ Permutation (map fst out) (map node children)
    /\ (forall ds us : list Child,
           let sorted := filter is_docked ds ++ filter is_undocked us in
           map fst (placements (effects (render h sorted))) = map node sorted).
Proof.
  intros has_scope e h children out0 dom H S out. unfold out.
  assert (P : Permutation
                (map fst (placements (effects (render h children))))
                (map node children)).
  { rewrite render_placed, <- map_app.
    apply Permutation_map, filter_split_perm. }
  split; [|split; [|split; [|split]]].
  - unfold handler. rewrite H. apply perform_checked_scoped.
    intros n I. apply (Permutation_in _ P) in I.
    apply in_map_iff in I as (c & <- & I).
    rewrite forallb_forall in S. now apply S.
  - apply render_placed.
  - rewrite <- (length_map fst), render_placed, <- map_app, length_map.
    apply Permutation_length, filter_split_perm.
  - exact P.
  - intros ds us. cbv zeta. rewrite render_placed.
    destruct (filter_docked_sorted ds us) as [-> ->].
    now rewrite map_app.
Qed.

Lemma one_rectangle_per_child_witness :
  outcome_threw
    (handler (fun _ => true) (mkElement "1" (Some 200) (Some 100) None)
       [mkChild 1 []; mkChild 2 [("dock", "top"); ("height", "10")]]
       [] (fun _ => mkPlaced None None None))
  = false
  /\ map fst
       (placements
          (effects
             (render (parent 200 100)
                [mkChild 1 []; mkChild 2 [("dock", "top"); ("height", "10")]])))
     = [2%nat; 1%nat].
Proof.
  destruct (one_rectangle_per_child (fun _ => true)
              (mkElement "1" (Some 200) (Some 100) None) (parent 200 100)
              [mkChild 1 []; mkChild 2 [("dock", "top"); ("height", "10")]]
              [] (fun _ => mkPlaced None None None) eq_refl eq_refl)
    as (F & M & _).
  split.
  - rewrite F. reflexivity.
  - exact M.
Defined.

(** An undocked child before a docked one is handed its rectangle after
    it: the rectangles do not come out in input order. *)
Lemma placement_order_counterexample :
  map fst (layout 200 100
             [mkChild 1 []; mkChild 2 [("dock", "top"); ("height", "10")]])
  = [2%nat; 1%nat]
  /\ map node [mkChild 1 []; mkChild 2 [("dock", "top"); ("height", "10")]]
     = [1%nat; 2%nat]
  /\ map fst (layout 200 100
                [mkChild 1 []; mkChild 2 [("dock", "top"); ("height", "10")]])
     <> map node [mkChild 1 []; mkChild 2 [("dock", "top"); ("height", "10")]].
Proof.
  split; [vm_compute; reflexivity|]. split; [reflexivity|].
  vm_compute. discriminate.
Qed.

(** ** The requested size *)

Lemma attr_number_or_absent child name fallback :
  attr child name = None -> attr_number_or child name fallback = fallback.
Proof. unfold attr_number_or. now intros ->. Qed.

Lemma attr_number_or_empty child name fallback :
  attr child name = Some "" -> attr_number_or child name fallback = fallback.
Proof. unfold attr_number_or. now intros ->. Qed.

Lemma attr_number_or_given child name fallback s :
  attr child name = Some s -> JS.truthy (Some s) = true ->
  attr_number_or child name fallback = JS.Number s.
Proof. unfold attr_number_or. now intros -> ->. Qed.

(** C8. A child with no [width] (no [height]) attribute starts with the
    parent's [width] ([height]) as the handler resolved it when it
    started, whatever children went through the loop before it: the
    fallback is not the undocked frame. *)
Theorem size_falls_back_to_parent :
  forall (h : Host) (pre : list Child) (child : Child) (m : Margin),
    let st := docked_pass (initial h) pre in
    (attr child "width" = None ->
     childWidth (child_vars st m child) = or_else (host_width h) (clientWidth h)
     /\ childWidth (child_vars st m child) = width (initial h))
    /\ (attr child "height" = None ->
        childHeight (child_vars st m child)
        = or_else (host_height h) (clientHeight h)
        /\ childHeight (child_vars st m child) = height (initial h)).
Proof.
  intros h pre child m st.
  destruct (docked_pass_keeps pre (initial h)) as (_ & _ & W & H).
  fold st in W, H. unfold child_vars. cbn [childWidth childHeight].
  split; intros A; rewrite (attr_number_or_absent _ _ _ A).
  - now rewrite W.
  - now rewrite H.
Qed.

Lemma size_falls_back_to_parent_witness :
  childWidth
    (child_vars
       (docked_pass (initial (parent 200 100))
          [mkChild 1 [("dock", "left"); ("width", "50")]])
       (mkMargin 0 0 0 0) (mkChild 2 [("dock", "top"); ("height", "10")]))
  = 200
  /\ childHeight
       (child_vars
          (docked_pass (initial (parent 200 100))
             [mkChild 1 [("dock", "top"); ("height", "30")]])
          (mkMargin 0 0 0 0) (mkChild 2 [("dock", "left"); ("width", "10")]))
     = 100.
Proof.
  split.
  - exact (proj1 (proj1 (size_falls_back_to_parent (parent 200 100)
             [mkChild 1 [("dock", "left"); ("width", "50")]]
             (mkChild 2 [("dock", "top"); ("height", "10")])
             (mkMargin 0 0 0 0)) eq_refl)).
  - exact (proj1 (proj2 (size_falls_back_to_parent (parent 200 100)
             [mkChild 1 [("dock", "top"); ("height", "30")]]
             (mkChild 2 [("dock", "left"); ("width", "10")])
             (mkMargin 0 0 0 0)) eq_refl)).
Defined.

(** ** NaN in the arithmetic *)

Lemma is_nan_spec a : PrimFloat.is_nan a = true -> Prim2SF a = S754_nan.
Proof.
  rewrite is_nan_key. now destruct (Prim2SF a) as [[]|[]| |[] m e].
Qed.

Lemma spec_is_nan a : Prim2SF a = S754_nan -> PrimFloat.is_nan a = true.
Proof. intros H. now rewrite is_nan_key, H. Qed.

Lemma add_NaN_l a b :
  PrimFloat.is_nan a = true -> PrimFloat.is_nan (a + b) = true.
Proof.
  intros H. apply spec_is_nan. now rewrite add_spec, (is_nan_spec _ H).
Qed.

Lemma add_NaN_r a b :
  PrimFloat.is_nan b = true -> PrimFloat.is_nan (a + b) = true.
Proof.
  intros H. apply spec_is_nan. rewrite add_spec, (is_nan_spec _ H).
  now destruct (Prim2SF a).
Qed.

Lemma sub_NaN_l a b :
  PrimFloat.is_nan a = true -> PrimFloat.is_nan (a - b) = true.
Proof.
  intros H. apply spec_is_nan. now rewrite sub_spec, (is_nan_spec _ H).
Qed.

Lemma sub_NaN_r a b :
  PrimFloat.is_nan b = true -> PrimFloat.is_nan (a - b) = true.
Proof.
  intros H. apply spec_is_nan. rewrite sub_spec, (is_nan_spec _ H).
  now destruct (Prim2SF a).
Qed.

Lemma Math_max_NaN_l a b :
  PrimFloat.is_nan a = true -> PrimFloat.is_nan (JS.Math_max a b) = true.
Proof. unfold JS.Math_max. now intros ->. Qed.

Lemma Math_min_NaN_l a b :
  PrimFloat.is_nan a = true -> PrimFloat.is_nan (JS.Math_min a b) = true.
Proof. unfold JS.Math_min. now intros ->. Qed.

(** C9. The [width] and [height] attributes are not fail-soft.  A
    non-empty [width] that is not a number is NaN after [Number], and so
    are the child's dock footprint, the frame bound a left or right dock
    updates, and the width of the rectangle the docked child is handed;
    likewise a [height] that is not a number reaches the footprint, the
    frame bound of a top or bottom dock, the rectangle's height and, for
    a bottom dock, its y.  With [width="abc"] docked left in a 200x100
    parent the child gets (0, 0, NaN, 100) and frame.left is NaN, whereas
    the margin "abc" is the all-zero margin. *)
Theorem size_attributes_propagate_NaN :
  (forall (st : Locals) (child : Child) (s : string) (d : Dock),
      attr child "width" = Some s -> JS.truthy (Some s) = true ->
      JS.isNaN (JS.Number s) = true -> dock_of child = Some d ->
      let m := parseMargin (attr child "margin") in
      let v := child_vars st m child in
      JS.isNaN (childWidth v) = true
      /\ JS.isNaN (childDockWidth m v) = true
      /\ (d = dock_left ->
          JS.isNaN (left (undockedMargin (each_child st child))) = true)
      /\ (d = dock_right ->
          JS.isNaN (right (undockedMargin (each_child st child))) = true)
      /\ exists r : Rect,
          effects (each_child st child) = effects st ++ [place (node child) r]
          /\ JS.isNaN (rect_width r) = true)
  /\ (forall (st : Locals) (child : Child) (s : string) (d : Dock),
         attr child "height" = Some s -> JS.truthy (Some s) = true ->
         JS.isNaN (JS.Number s) = true -> dock_of child = Some d ->
         let m := parseMargin (attr child "margin") in
         let v := child_vars st m child in
         JS.isNaN (childHeight v) = true
         /\ JS.isNaN (childDockHeight m v) = true
         /\ (d = dock_top ->
             JS.isNaN (top (undockedMargin (each_child st child))) = true)
         /\ (d = dock_bottom ->
             JS.isNaN (bottom (undockedMargin (each_child st child))) = true)
         /\ exists r : Rect,
             effects (each_child st child) = effects st ++ [place (node child) r]
             /\ JS.isNaN (rect_height r) = true
             /\ (d = dock_bottom -> JS.isNaN (rect_y r) = true))
  /\ JS.isNaN (JS.Number "abc") = true
  /\ parseMargin (Some "abc") = mkMargin 0 0 0 0
  /\ layout 200 100 [mkChild 1 [("dock", "left"); ("width", "abc")]]
     = [(1%nat, mkRect 0 0 PrimFloat.nan 100)]
  /\ undockedMargin
       (render (parent 200 100) [mkChild 1 [("dock", "left"); ("width", "abc")]])
     = mkMargin 0 200 100 PrimFloat.nan
  /\ layout 200 100 [mkChild 1 [("dock", "bottom"); ("height", "abc")]]
     = [(1%nat, mkRect 0 PrimFloat.nan 200 PrimFloat.nan)]
  /\ undockedMargin
       (render (parent 200 100) [mkChild 1 [("dock", "bottom"); ("height", "abc")]])
     = mkMargin 0 200 PrimFloat.nan 0.
Proof.
  split; [|split; [|repeat split; vm_compute; reflexivity]].
  - intros st child s d A T N D. cbv zeta.
    assert (W : JS.isNaN (childWidth
                  (child_vars st (parseMargin (attr child "margin")) child))
                = true).
    { unfold child_vars. cbn [childWidth].
      now rewrite (attr_number_or_given _ _ _ _ A T). }
    assert (F : JS.isNaN (childDockWidth (parseMargin (attr child "margin"))
                  (child_vars st (parseMargin (attr child "margin")) child))
                = true)
      by (apply add_NaN_l, add_NaN_r, W).
    split; [exact W|]. split; [exact F|].
    split; [|split].
    + intros ->. rewrite each_child_frame, D. cbv zeta.
      apply Math_max_NaN_l, add_NaN_r, F.
    + intros ->. rewrite each_child_frame, D. cbv zeta.
      apply Math_min_NaN_l, sub_NaN_r, F.
    + rewrite (each_child_recognized _ _ _ D). cbv zeta.
      eexists. split; [reflexivity|].
      unfold child_vars in W. cbn [childWidth] in W.
      destruct d; cbn; try exact W; apply sub_NaN_l, W.
  - intros st child s d A T N D. cbv zeta.
    assert (H : JS.isNaN (childHeight
                  (child_vars st (parseMargin (attr child "margin")) child))
                = true).
    { unfold child_vars. cbn [childHeight].
      now rewrite (attr_number_or_given _ _ _ _ A T). }
    assert (F : JS.isNaN (childDockHeight (parseMargin (attr child "margin"))
                  (child_vars st (parseMargin (attr child "margin")) child))
                = true)
      by (apply add_NaN_l, add_NaN_r, H).
    split; [exact H|]. split; [exact F|].
    split; [|split].
    + intros ->. rewrite each_child_frame, D. cbv zeta.
      apply Math_max_NaN_l, add_NaN_r, F.
    + intros ->. rewrite each_child_frame, D. cbv zeta.
      apply Math_min_NaN_l, sub_NaN_r, F.
    + rewrite (each_child_recognized _ _ _ D). cbv zeta.
      eexists. split; [reflexivity|].
      unfold child_vars in H. cbn [childHeight] in H.
      unfold childDockHeight, child_vars in F. cbn [childHeight] in F.
      split.
      * destruct d; cbn; try exact H; apply sub_NaN_l, H.
      * intros ->. cbn. apply sub_NaN_r, F.
Qed.

Lemma size_attributes_propagate_NaN_witness :
  JS.isNaN
    (left (undockedMargin
             (each_child (initial (parent 200 100))
                (mkChild 1 [("dock", "left"); ("width", "abc")]))))
  = true
  /\ JS.isNaN
       (bottom (undockedMargin
                  (each_child (initial (parent 200 100))
                     (mkChild 1 [("dock", "bottom"); ("height", "abc")]))))
     = true.
Proof.
  split.
  - exact (proj1 (proj2 (proj2
      (proj1 size_attributes_propagate_NaN (initial (parent 200 100))
         (mkChild 1 [("dock", "left"); ("width", "abc")]) "abc" dock_left
         eq_refl eq_refl eq_refl eq_refl))) eq_refl).
  - exact (proj1 (proj2 (proj2 (proj2
      (proj1 (proj2 size_attributes_propagate_NaN) (initial (parent 200 100))
         (mkChild 1 [("dock", "bottom"); ("height", "abc")]) "abc" dock_bottom
         eq_refl eq_refl eq_refl eq_refl)))) eq_refl).
Defined.

(** ** What an iteration may change *)

Lemma each_child_same_frame st st' child :
  same_frame st st' -> same_frame (each_child st child) (each_child st' child).
Proof.
  intros (X & Y & W & H & F). unfold same_frame.
  destruct (each_child_keeps st child) as (-> & -> & -> & ->).
  destruct (each_child_keeps st' child) as (-> & -> & -> & ->).
  repeat split; try assumption.
  rewrite !each_child_frame. cbv zeta. unfold child_vars.
  now rewrite X, Y, W, H, F.
Qed.

Lemma docked_pass_same_frame children : forall st st',
  same_frame st st' ->
  same_frame (docked_pass st children) (docked_pass st' children).
Proof.
  induction children as [|c cs IH]; intros st st' S; [exact S|].
  rewrite !docked_pass_cons. now apply IH, each_child_same_frame.
Qed.

Lemma each_child_undocked_same_frame st child :
  is_docked child = false -> same_frame (each_child st child) st.
Proof.
  unfold is_docked. intros D. unfold same_frame.
  destruct (each_child_keeps st child) as (-> & -> & -> & ->).
  repeat split. rewrite each_child_frame. cbv zeta.
  now destruct (dock_of child).
Qed.

Lemma docked_pass_frame_docked_only children : forall st,
  undockedMargin (docked_pass st children)
  = undockedMargin (docked_pass st (filter is_docked children)).
Proof.
  induction children as [|c cs IH]; intros st; [reflexivity|].
  rewrite docked_pass_cons. cbn [filter].
  destruct (is_docked c) eqn:D.
  - rewrite docked_pass_cons. apply IH.
  - rewrite IH.
    apply (docked_pass_same_frame (filter is_docked cs) _ _
             (each_child_undocked_same_frame st c D)).
Qed.

(** C10. An iteration for a child docked to a side assigns only that
    side's field of the frame: the other three fields keep their values;
    an iteration for any other child (no dock, or an unsupported one)
    leaves the whole frame alone; and no iteration changes [x], [y],
    [width] or [height].  So the final frame is that of the docked
    children alone, and the second loop does not touch it. *)
Theorem frame_effect_of_a_child :
  (forall (st : Locals) (child : Child),
      let st' := each_child st child in
      let um := undockedMargin st in
      let um' := undockedMargin st' in
      (x st' = x st /\ y st' = y st /\ width st' = width st
       /\ height st' = height st)
      /\ match dock_of child with
         | Some dock_top =>
             right um' = right um /\ bottom um' = bottom um
             /\ left um' = left um
         | Some dock_right =>
             top um' = top um /\ bottom um' = bottom um /\ left um' = left um
         | Some dock_bottom =>
             top um' = top um /\ right um' = right um /\ left um' = left um
         | Some dock_left =>
             top um' = top um /\ right um' = right um
             /\ bottom um' = bottom um
         | None => um' = um
         end)
  /\ (forall (st : Locals) (children : list Child),
         undockedMargin (docked_pass st children)
         = undockedMargin (docked_pass st (filter is_docked children)))
  /\ (forall (h : Host) (children : list Child),
         undockedMargin (render h children)
         = undockedMargin
             (docked_pass (initial h) (filter is_docked children))).
Proof.
  split; [|split].
  - intros st child. cbv zeta. split; [apply each_child_keeps|].
    rewrite each_child_frame. cbv zeta.
    now destruct (dock_of child) as [[]|].
  - intros st children. apply docked_pass_frame_docked_only.
  - intros h children.
    now rewrite render_frame, docked_pass_frame_docked_only.
Qed.

(** ** What a placement leaves on the document *)

(** [positionChild] sets the size on the child's scope, moves the child
    unless the offset is zero, and touches no other node. *)
Lemma positionChild_writes child x0 y0 w h dom :
  scope_width (positionChild child x0 y0 w h dom child) = Some w
  /\ scope_height (positionChild child x0 y0 w h dom child) = Some h
  /\ transform (positionChild child x0 y0 w h dom child)
     = (if JS.strict_neq x0 0 || JS.strict_neq y0 0 then Some (x0, y0)
        else transform (dom child))
  /\ (forall other, other <> child ->
        positionChild child x0 y0 w h dom other = dom other).
Proof.
  unfold positionChild. rewrite Nat.eqb_refl. repeat split.
  intros other N. apply Nat.eqb_neq in N. now rewrite N.
Qed.

(** The console after performing effects is the console before it and
    the messages logged. *)
Lemma perform_console es : forall w,
  fst (fold_left perform es w) = fst w ++ console es.
Proof.
  induction es as [|[msg|c a b ww hh] es IH]; intros w; cbn [fold_left console].
  - now rewrite app_nil_r.
  - rewrite IH. cbn. now rewrite <- app_assoc.
  - now rewrite IH.
Qed.

Lemma perform_untouched es : forall w n,
  ~ In n (map fst (placements es)) ->
  snd (fold_left perform es w) n = snd w n.
Proof.
  induction es as [|[msg|c a b ww hh] es IH]; intros w n N;
    cbn [fold_left placements map fst] in *.
  - reflexivity.
  - now rewrite IH.
  - rewrite IH by (intros I; apply N; now right).
    cbn. unfold positionChild.
    destruct (Nat.eqb_spec n c) as [->|D]; [|reflexivity].
    exfalso. apply N. now left.
Qed.

(** With every node placed once, a child's scope ends up with the size
    of its own rectangle. *)
Lemma document_after es : forall w n r,
  NoDup (map fst (placements es)) -> In (n, r) (placements es) ->
  scope_width (snd (fold_left perform es w) n) = Some (rect_width r)
  /\ scope_height (snd (fold_left perform es w) n) = Some (rect_height r).
Proof.
  induction es as [|[msg|c a b ww hh] es IH]; intros w n r D I;
    cbn [fold_left placements map fst] in *.
  - contradiction.
  - now apply IH.
  - inversion D as [|? ? N D']; subst. destruct I as [[= -> <-]|I].
    + rewrite (perform_untouched es _ n N). cbn.
      unfold positionChild. now rewrite Nat.eqb_refl.
    + now apply IH.
Qed.

Lemma document_after_render h children dom child :
  NoDup (map node children) -> In child children ->
  exists r : Rect,
    In (node child, r) (placements (effects (render h children)))
    /\ scope_width
         (snd (fold_left perform (effects (render h children)) ([], dom))
            (node child))
       = Some (rect_width r)
    /\ scope_height
         (snd (fold_left perform (effects (render h children)) ([], dom))
            (node child))
       = Some (rect_height r).
Proof.
  intros D I.
  assert (P : Permutation (map fst (placements (effects (render h children))))
                (map node children)).
  { rewrite render_placed, <- map_app.
    apply Permutation_map, filter_split_perm. }
  assert (I' : In (node child)
                 (map fst (placements (effects (render h children)))))
    by (apply (Permutation_in _ (Permutation_sym P)), in_map, I).
  apply in_map_iff in I' as ([n r] & E & I'). cbn in E. subst n.
  exists r. split; [exact I'|].
  apply document_after; [|exact I'].
  apply (Permutation_NoDup (Permutation_sym P) D).
Qed.

(** ** [Math.max] and [Math.min] as extrema of the rank *)

Lemma rank_key f :
  rank f = None <-> FloatOrder.key f = None.
Proof. destruct f as [[]|[]| |[] m e]; cbn; split; congruence. Qed.

Lemma is_nan_rank a :
  PrimFloat.is_nan a =
  match rank (Prim2SF a) with None => true | Some _ => false end.
Proof.
  rewrite is_nan_key.
  now destruct (Prim2SF a) as [[]|[]| |[] m e].
Qed.

Lemma rank_inj f g k : rank f = Some k -> rank g = Some k -> f = g.
Proof.
  destruct f as [[]|[]| |[] m1 e1], g as [[]|[]| |[] m2 e2]; cbn;
    intros Hf Hg; rewrite <- Hf in Hg; try discriminate; try reflexivity.
  - injection Hg as He Hm. f_equal; lia.
  - injection Hg as He Hm. now subst.
Qed.

(** Where [<] decides, the rank agrees with it. *)
Lemma rank_of_key_Lt f g kf kg rf rg :
  FloatOrder.key f = Some kf -> FloatOrder.key g = Some kg ->
  rank f = Some rf -> rank g = Some rg ->
  FloatOrder.lex3 kf kg = Lt -> FloatOrder.lex3 rf rg = Lt.
Proof.
  destruct f as [[]|[]| |[] m1 e1], g as [[]|[]| |[] m2 e2]; cbn;
    intros [= <-] [= <-] [= <-] [= <-]; cbn; congruence.
Qed.

Lemma fle_refl a : PrimFloat.is_nan a = false -> fle a a.
Proof.
  rewrite is_nan_rank.
  destruct (rank (Prim2SF a)) as [r|] eqn:R; [|discriminate]. intros _.
  exists r, r. split; [assumption|]. split; [assumption|].
  now rewrite lex3_refl.
Qed.

Lemma fle_trans a b c : fle a b -> fle b c -> fle a c.
Proof.
  intros (ra & rb & Ha & Hb & L1) (rb' & rc & Hb' & Hc & L2).
  rewrite Hb in Hb'. injection Hb' as <-.
  exists ra, rc. split; [assumption|]. split; [assumption|].
  now apply (lex3_le_trans ra rb rc).
Qed.

Lemma fle_antisym a b : fle a b -> fle b a -> a = b.
Proof.
  intros (ra & rb & Ha & Hb & L1) (rb' & ra' & Hb' & Ha' & L2).
  rewrite Hb in Hb'. injection Hb' as <-.
  rewrite Ha in Ha'. injection Ha' as <-.
  rewrite (lex3_antisym ra rb) in L2.
  destruct (FloatOrder.lex3 ra rb) eqn:L; try (cbn in L2; congruence).
  apply lex3_eq in L. subst rb.
  apply Prim2SF_inj. exact (rank_inj _ _ _ Ha Hb).
Qed.

Lemma fle_not_NaN a b :
  fle a b -> PrimFloat.is_nan a = false /\ PrimFloat.is_nan b = false.
Proof.
  intros (ra & rb & Ha & Hb & _). now rewrite !is_nan_rank, Ha, Hb.
Qed.

(** From the comparison [<] to the rank. *)
Lemma ltb_fle a b : PrimFloat.ltb a b = true -> fle a b.
Proof.
  rewrite ltb_key. unfold FloatOrder.kcompare.
  destruct (FloatOrder.key (Prim2SF a)) as [ka|] eqn:Ka; [|discriminate].
  destruct (FloatOrder.key (Prim2SF b)) as [kb|] eqn:Kb; [|discriminate].
  destruct (FloatOrder.lex3 ka kb) eqn:L; try discriminate. intros _.
  destruct (rank (Prim2SF a)) as [ra|] eqn:Ra;
    [|apply rank_key in Ra; congruence].
  destruct (rank (Prim2SF b)) as [rb|] eqn:Rb;
    [|apply rank_key in Rb; congruence].
  exists ra, rb. split; [assumption|]. split; [assumption|].
  now rewrite (rank_of_key_Lt _ _ _ _ _ _ Ka Kb Ra Rb L).
Qed.

Lemma neg_zero_below_zero :
  fle PrimFloat.neg_zero PrimFloat.zero /\ fle PrimFloat.zero PrimFloat.zero
  /\ fle PrimFloat.neg_zero PrimFloat.neg_zero.
Proof.
  repeat split; eexists; eexists; (split; [vm_compute; reflexivity|]);
    (split; [vm_compute; reflexivity|]); vm_compute; discriminate.
Qed.

(** Two numbers that [<] does not separate: the same number, or zeros. *)
Lemma unordered_cases a b :
  PrimFloat.is_nan a = false -> PrimFloat.is_nan b = false ->
  PrimFloat.ltb a b = false -> PrimFloat.ltb b a = false ->
  a = b \/ ((a = PrimFloat.zero \/ a = PrimFloat.neg_zero)
           /\ (b = PrimFloat.zero \/ b = PrimFloat.neg_zero)).
Proof.
  rewrite !is_nan_key, !ltb_key. unfold FloatOrder.kcompare.
  destruct (FloatOrder.key (Prim2SF a)) as [ka|] eqn:Ka; [|discriminate].
  destruct (FloatOrder.key (Prim2SF b)) as [kb|] eqn:Kb; [|discriminate].
  rewrite (lex3_antisym ka kb).
  destruct (FloatOrder.lex3 ka kb) eqn:L; cbn; try discriminate.
  intros _ _ _ _. apply lex3_eq in L. subst kb.
  exact (same_key_cases _ _ _ Ka Kb).
Qed.

(** [Math.max] of two numbers is one of them and at least both. *)
Lemma Math_max_spec a b :
  PrimFloat.is_nan a = false -> PrimFloat.is_nan b = false ->
  (JS.Math_max a b = a \/ JS.Math_max a b = b)
  /\ fle a (JS.Math_max a b) /\ fle b (JS.Math_max a b).
Proof.
  intros Na Nb. unfold JS.Math_max. rewrite Na, Nb. cbn [orb].
  destruct (PrimFloat.ltb a b) eqn:L1.
  { split; [now right|]. split; [now apply ltb_fle | now apply fle_refl]. }
  destruct (PrimFloat.ltb b a) eqn:L2.
  { split; [now left|]. split; [now apply fle_refl | now apply ltb_fle]. }
  destruct neg_zero_below_zero as (Z1 & Z2 & Z3).
  destruct (unordered_cases a b Na Nb L1 L2) as [E | [[E1|E1] [E2|E2]]];
    subst; cbn; auto.
  destruct (PrimFloat.Leibniz.eqb b PrimFloat.neg_zero);
    (split; [now left|]); split; now apply fle_refl.
Qed.

(** [Math.min] of two numbers is one of them and at most both. *)
Lemma Math_min_spec a b :
  PrimFloat.is_nan a = false -> PrimFloat.is_nan b = false ->
  (JS.Math_min a b = a \/ JS.Math_min a b = b)
  /\ fle (JS.Math_min a b) a /\ fle (JS.Math_min a b) b.
Proof.
  intros Na Nb. unfold JS.Math_min. rewrite Na, Nb. cbn [orb].
  destruct (PrimFloat.ltb a b) eqn:L1.
  { split; [now left|]. split; [now apply fle_refl | now apply ltb_fle]. }
  destruct (PrimFloat.ltb b a) eqn:L2.
  { split; [now right|]. split; [now apply ltb_fle | now apply fle_refl]. }
  destruct neg_zero_below_zero as (Z1 & Z2 & Z3).
  destruct (unordered_cases a b Na Nb L1 L2) as [E | [[E1|E1] [E2|E2]]];
    subst; cbn; auto.
  destruct (PrimFloat.Leibniz.eqb b PrimFloat.neg_zero);
    (split; [now left|]); split; now apply fle_refl.
Qed.

Lemma Math_max_is_nan a b :
  PrimFloat.is_nan (JS.Math_max a b)
  = PrimFloat.is_nan a || PrimFloat.is_nan b.
Proof.
  destruct (PrimFloat.is_nan a) eqn:Na.
  { unfold JS.Math_max. now rewrite Na. }
  destruct (PrimFloat.is_nan b) eqn:Nb.
  { unfold JS.Math_max. now rewrite Na, Nb. }
  destruct (Math_max_spec a b Na Nb) as ([-> | ->] & _); assumption.
Qed.

Lemma Math_min_is_nan a b :
  PrimFloat.is_nan (JS.Math_min a b)
  = PrimFloat.is_nan a || PrimFloat.is_nan b.
Proof.
  destruct (PrimFloat.is_nan a) eqn:Na.
  { unfold JS.Math_min. now rewrite Na. }
  destruct (PrimFloat.is_nan b) eqn:Nb.
  { unfold JS.Math_min. now rewrite Na, Nb. }
  destruct (Math_min_spec a b Na Nb) as ([-> | ->] & _); assumption.
Qed.

Lemma is_nan_true a : PrimFloat.is_nan a = true -> a = PrimFloat.nan.
Proof.
  intros H. apply Prim2SF_inj. now rewrite (is_nan_spec _ H).
Qed.

(** Taking [Math.max] with two values does not depend on their order. *)
Lemma Math_max_left_comm a b t :
  JS.Math_max a (JS.Math_max b t) = JS.Math_max b (JS.Math_max a t).
Proof.
  destruct (PrimFloat.is_nan a || PrimFloat.is_nan b || PrimFloat.is_nan t)
    eqn:N.
  - rewrite (is_nan_true (JS.Math_max a (JS.Math_max b t))),
      (is_nan_true (JS.Math_max b (JS.Math_max a t))); [reflexivity| |];
      rewrite !Math_max_is_nan;
      destruct (PrimFloat.is_nan a), (PrimFloat.is_nan b),
        (PrimFloat.is_nan t); try reflexivity; discriminate.
  - apply orb_false_elim in N as [N Nt]. apply orb_false_elim in N as [Na Nb].
    assert (Nbt : PrimFloat.is_nan (JS.Math_max b t) = false)
      by now rewrite Math_max_is_nan, Nb, Nt.
    assert (Nat' : PrimFloat.is_nan (JS.Math_max a t) = false)
      by now rewrite Math_max_is_nan, Na, Nt.
    destruct (Math_max_spec b t Nb Nt) as (Ebt & Lb & Lt).
    destruct (Math_max_spec a t Na Nt) as (Eat & La & Lt').
    destruct (Math_max_spec a _ Na Nbt) as (E1 & L1a & L1).
    destruct (Math_max_spec b _ Nb Nat') as (E2 & L2b & L2).
    apply fle_antisym.
    + destruct E1 as [-> | ->]; [eauto using fle_trans|].
      destruct Ebt as [-> | ->]; eauto using fle_trans.
    + destruct E2 as [-> | ->]; [eauto using fle_trans|].
      destruct Eat as [-> | ->]; eauto using fle_trans.
Qed.

(** Taking [Math.min] with two values does not depend on their order. *)
Lemma Math_min_left_comm a b t :
  JS.Math_min a (JS.Math_min b t) = JS.Math_min b (JS.Math_min a t).
Proof.
  destruct (PrimFloat.is_nan a || PrimFloat.is_nan b || PrimFloat.is_nan t)
    eqn:N.
  - rewrite (is_nan_true (JS.Math_min a (JS.Math_min b t))),
      (is_nan_true (JS.Math_min b (JS.Math_min a t))); [reflexivity| |];
      rewrite !Math_min_is_nan;
      destruct (PrimFloat.is_nan a), (PrimFloat.is_nan b),
        (PrimFloat.is_nan t); try reflexivity; discriminate.
  - apply orb_false_elim in N as [N Nt]. apply orb_false_elim in N as [Na Nb].
    assert (Nbt : PrimFloat.is_nan (JS.Math_min b t) = false)
      by now rewrite Math_min_is_nan, Nb, Nt.
    assert (Nat' : PrimFloat.is_nan (JS.Math_min a t) = false)
      by now rewrite Math_min_is_nan, Na, Nt.
    destruct (Math_min_spec b t Nb Nt) as (Ebt & Lb & Lt).
    destruct (Math_min_spec a t Na Nt) as (Eat & La & Lt').
    destruct (Math_min_spec a _ Na Nbt) as (E1 & L1a & L1).
    destruct (Math_min_spec b _ Nb Nat') as (E2 & L2b & L2).
    apply fle_antisym.
    + destruct E2 as [-> | ->]; [eauto using fle_trans|].
      destruct Eat as [-> | ->]; eauto using fle_trans.
    + destruct E1 as [-> | ->]; [eauto using fle_trans|].
      destruct Ebt as [-> | ->]; eauto using fle_trans.
Qed.

(** ** The order of the children *)

Lemma each_child_bump st child :
  undockedMargin (each_child st child)
  = bump (x st) (y st) (width st) (height st) child (undockedMargin st).
Proof. rewrite each_child_frame. reflexivity. Qed.

Lemma bump_swap x0 y0 w h a b um :
  bump x0 y0 w h a (bump x0 y0 w h b um)
  = bump x0 y0 w h b (bump x0 y0 w h a um).
Proof.
  unfold bump.
  destruct (dock_of a) as [[]|], (dock_of b) as [[]|]; cbn;
    try reflexivity; unfold set_top, set_right, set_bottom, set_left; cbn;
    f_equal; auto using Math_max_left_comm, Math_min_left_comm.
Qed.

Lemma each_child_swap st a b :
  same_frame (each_child (each_child st a) b) (each_child (each_child st b) a).
Proof.
  unfold same_frame.
  destruct (each_child_keeps (each_child st a) b) as (-> & -> & -> & ->).
  destruct (each_child_keeps (each_child st b) a) as (-> & -> & -> & ->).
  rewrite !each_child_bump.
  destruct (each_child_keeps st a) as (-> & -> & -> & ->).
  destruct (each_child_keeps st b) as (-> & -> & -> & ->).
  repeat split. apply bump_swap.
Qed.

Lemma same_frame_trans s1 s2 s3 :
  same_frame s1 s2 -> same_frame s2 s3 -> same_frame s1 s3.
Proof.
  unfold same_frame. intros (-> & -> & -> & -> & ->) (-> & -> & -> & -> & ->).
  now repeat split.
Qed.

Lemma same_frame_refl st : same_frame st st.
Proof. unfold same_frame. now repeat split. Qed.

Lemma docked_pass_perm cs cs' :
  Permutation cs cs' ->
  forall st st', same_frame st st' ->
  same_frame (docked_pass st cs) (docked_pass st' cs').
Proof.
  induction 1 as [|c l l' P IH|a b l|l l' l'' P1 IH1 P2 IH2]; intros st st' S.
  - exact S.
  - rewrite !docked_pass_cons. now apply IH, each_child_same_frame.
  - rewrite !docked_pass_cons. apply docked_pass_same_frame.
    eapply same_frame_trans; [apply each_child_swap|].
    now apply each_child_same_frame, each_child_same_frame.
  - eapply same_frame_trans; [apply (IH1 st st' S)|].
    apply IH2, same_frame_refl.
Qed.

Lemma step_effects_same_frame st st' child :
  same_frame st st' -> step_effects st child = step_effects st' child.
Proof.
  intros (X & Y & W & H & F). unfold step_effects.
  now rewrite X, Y, W, H, F.
Qed.

(** The effects of the first loop, child by child, each as if it were
    the first. *)
Lemma docked_pass_effects cs : forall st,
  effects (docked_pass st cs) = effects st ++ flat_map (step_effects st) cs.
Proof.
  induction cs as [|c cs IH] using rev_ind; intros st.
  - cbn. now rewrite app_nil_r.
  - rewrite docked_pass_app, flat_map_app. cbn [docked_pass fold_left flat_map].
    rewrite each_child_effects, step_effects_any_prefix, IH, app_nil_r.
    now rewrite <- app_assoc.
Qed.

Lemma filter_perm (f : Child -> bool) l l' :
  Permutation l l' -> Permutation (filter f l) (filter f l').
Proof.
  induction 1 as [|c l l' P IH|a b l|l l' l'' P1 IH1 P2 IH2]; cbn.
  - constructor.
  - destruct (f c); [now constructor | assumption].
  - destruct (f a), (f b); try reflexivity. constructor.
  - now transitivity (filter f l').
Qed.

Lemma placements_flat_map (g : Child -> list Effect) cs :
  placements (flat_map g cs) = flat_map (fun c => placements (g c)) cs.
Proof.
  induction cs as [|c cs IH]; cbn; [reflexivity|].
  now rewrite placements_app, IH.
Qed.

(** The rectangles of a run, child by child. *)
Lemma render_placements h children :
  placements (effects (render h children))
  = flat_map (fun c => placements (step_effects (initial h) c)) children
    ++ map (fun c => (node c,
                      spec_undocked
                        (undockedMargin (docked_pass (initial h) children))
                        (parseMargin (attr c "margin"))))
         (filter is_undocked children).
Proof.
  rewrite render_effects. cbv zeta.
  rewrite placements_app, docked_pass_effects, placements_app,
    placements_flat_map, placements_places.
  reflexivity.
Qed.

(** X5. The rectangle a child is handed does not depend on the order of
    its siblings: listing the children in another order gives the same
    final frame and the same (child, rectangle) pairs, in another order. *)
Theorem layout_independent_of_sibling_order :
  forall (h : Host) (children children' : list Child),
    Permutation children children' ->
    undockedMargin (render h children) = undockedMargin (render h children')
    /\ Permutation (placements (effects (render h children)))
         (placements (effects (render h children'))).
Proof.
  intros h cs cs' P.
  pose proof (docked_pass_perm cs cs' P _ _ (same_frame_refl (initial h)))
    as (_ & _ & _ & _ & F).
  split.
  - now rewrite !render_frame.
  - rewrite !render_placements, F. apply Permutation_app.
    + now apply Permutation_flat_map.
    + now apply Permutation_map, filter_perm.
Qed.

Lemma layout_independent_of_sibling_order_witness :
  Permutation
    (layout 200 100
       [mkChild 1 []; mkChild 2 [("dock", "top"); ("height", "10")];
        mkChild 3 [("dock", "top"); ("height", "30")]])
    (layout 200 100
       [mkChild 3 [("dock", "top"); ("height", "30")];
        mkChild 2 [("dock", "top"); ("height", "10")]; mkChild 1 []]).
Proof.
  apply (layout_independent_of_sibling_order (parent 200 100)).
  apply (Permutation_rev
           [mkChild 1 []; mkChild 2 [("dock", "top"); ("height", "10")];
            mkChild 3 [("dock", "top"); ("height", "30")]]).
Defined.

(** ** The document after a run *)

Lemma document_transform es : forall w n r,
  NoDup (map fst (placements es)) -> In (n, r) (placements es) ->
  transform (snd (fold_left perform es w) n)
  = if JS.strict_neq (rect_x r) 0 || JS.strict_neq (rect_y r) 0
    then Some (rect_x r, rect_y r)
    else transform (snd w n).
Proof.
  induction es as [|[msg|c a b ww hh] es IH]; intros w n r D I;
    cbn [fold_left placements map fst] in *.
  - contradiction.
  - now rewrite (IH _ n r D I).
  - inversion D as [|? ? N D']; subst. destruct I as [[= -> <-]|I].
    + rewrite (perform_untouched es _ n N). cbn.
      unfold positionChild. now rewrite Nat.eqb_refl.
    + rewrite (IH _ n r D' I). cbn. unfold positionChild.
      destruct (Nat.eqb_spec n c) as [->|]; [|reflexivity].
      exfalso. apply N. apply (in_map fst) in I. exact I.
Qed.

Lemma render_places_each h children child :
  In child children ->
  exists r : Rect, In (node child, r) (placements (effects (render h children))).
Proof.
  intros I.
  assert (I' : In (node child)
                 (map fst (placements (effects (render h children))))).
  { rewrite render_placed, <- map_app. apply in_map.
    apply (Permutation_in _ (Permutation_sym (filter_split_perm is_docked children))).
    exact I. }
  apply in_map_iff in I' as ([n r] & E & I'). cbn in E. subst n. now exists r.
Qed.

Lemma render_places_once h children :
  NoDup (map node children) ->
  NoDup (map fst (placements (effects (render h children)))).
Proof.
  intros D. rewrite render_placed, <- map_app.
  apply (Permutation_NoDup
           (Permutation_sym
              (Permutation_map node (filter_split_perm is_docked children)))).
  exact D.
Qed.

(** X1. After a run over children that are distinct nodes, every child's
    scope holds the width and height of the one rectangle the run handed
    it, whatever the document held before. *)
Theorem render_writes_sizes :
  forall (h : Host) (children : list Child) (dom : DOM) (child : Child),
    NoDup (map node children) -> In child children ->
    exists r : Rect,
      In (node child, r) (placements (effects (render h children)))
      /\ scope_width (document_after_run h children dom (node child))
         = Some (rect_width r)
      /\ scope_height (document_after_run h children dom (node child))
         = Some (rect_height r).
Proof.
  intros h children dom child D I.
  destruct (render_places_each h children child I) as [r R].
  exists r. split; [exact R|].
  apply document_after; [now apply render_places_once | exact R].
Qed.

Lemma render_writes_sizes_witness :
  exists r : Rect,
    In (2%nat, r)
      (layout 200 100
         [mkChild 1 [("dock", "left"); ("width", "50")]; mkChild 2 []])
    /\ scope_width
         (document_after_run (parent 200 100)
            [mkChild 1 [("dock", "left"); ("width", "50")]; mkChild 2 []]
            (fun _ => mkPlaced None None None) 2%nat)
       = Some (rect_width r)
    /\ scope_height
         (document_after_run (parent 200 100)
            [mkChild 1 [("dock", "left"); ("width", "50")]; mkChild 2 []]
            (fun _ => mkPlaced None None None) 2%nat)
       = Some (rect_height r).
Proof.
  apply (render_writes_sizes (parent 200 100)
           [mkChild 1 [("dock", "left"); ("width", "50")]; mkChild 2 []]
           (fun _ => mkPlaced None None None) (mkChild 2 [])).
  - repeat constructor; cbn; intuition discriminate.
  - right. now left.
Defined.

(** X2. [positionChild] sets a child's transform only when its offset is
    not (0, 0): after a run over distinct nodes a child handed a
    rectangle at another offset is translated there, and a child handed a
    rectangle at the origin keeps whatever transform the document had
    for it before the run. *)
Theorem render_moves_unless_at_origin :
  forall (h : Host) (children : list Child) (dom : DOM) (n : nat) (r : Rect),
    NoDup (map node children) ->
    In (n, r) (placements (effects (render h children))) ->
    transform (document_after_run h children dom n)
    = if JS.strict_neq (rect_x r) 0 || JS.strict_neq (rect_y r) 0
      then Some (rect_x r, rect_y r)
      else transform (dom n).
Proof.
  intros h children dom n r D I.
  apply (document_transform _ ([], dom) n r); [|exact I].
  now apply render_places_once.
Qed.

Lemma render_moves_unless_at_origin_witness :
  transform
    (document_after_run (parent 200 100)
       [mkChild 1 [("dock", "top"); ("height", "20")]; mkChild 2 []]
       (fun _ => mkPlaced (Some (7, 9)) None None) 1%nat)
  = Some (7, 9)
  /\ transform
       (document_after_run (parent 200 100)
          [mkChild 1 [("dock", "top"); ("height", "20")]; mkChild 2 []]
          (fun _ => mkPlaced (Some (7, 9)) None None) 2%nat)
     = Some (0, 20).
Proof.
  assert (D : NoDup (map node
                [mkChild 1 [("dock", "top"); ("height", "20")]; mkChild 2 []]))
    by (repeat constructor; cbn; intuition discriminate).
  split.
  - exact (render_moves_unless_at_origin (parent 200 100)
             [mkChild 1 [("dock", "top"); ("height", "20")]; mkChild 2 []]
             (fun _ => mkPlaced (Some (7, 9)) None None) 1%nat (mkRect 0 0 200 20)
             D (or_introl eq_refl)).
  - exact (render_moves_unless_at_origin (parent 200 100)
             [mkChild 1 [("dock", "top"); ("height", "20")]; mkChild 2 []]
             (fun _ => mkPlaced (Some (7, 9)) None None) 2%nat (mkRect 0 20 200 80)
             D (or_intror (or_introl eq_refl))).
Defined.

(** X3. A run writes to its children only: a node that is not among them
    is in the document after the run as it was before. *)
Theorem render_touches_children_only :
  forall (h : Host) (children : list Child) (dom : DOM) (n : nat),
    ~ In n (map node children) ->
    document_after_run h children dom n = dom n.
Proof.
  intros h children dom n N. unfold document_after_run.
  rewrite perform_untouched; [reflexivity|].
  rewrite render_placed, <- map_app. intros I. apply N.
  apply in_map_iff in I as (c & E & I). apply in_map_iff. exists c.
  split; [exact E|].
  exact (Permutation_in _ (filter_split_perm is_docked children) I).
Qed.

Lemma render_touches_children_only_witness :
  document_after_run (parent 200 100)
    [mkChild 1 [("dock", "top"); ("height", "20")]; mkChild 2 []]
    (fun _ => mkPlaced (Some (7, 9)) (Some 1) (Some 2)) 5%nat
  = mkPlaced (Some (7, 9)) (Some 1) (Some 2).
Proof.
  apply (render_touches_children_only (parent 200 100)
           [mkChild 1 [("dock", "top"); ("height", "20")]; mkChild 2 []]
           (fun _ => mkPlaced (Some (7, 9)) (Some 1) (Some 2)) 5%nat).
  cbn. intuition discriminate.
Defined.

(** X4. A layout nested as a child of another reads the size the outer
    run left on its scope: its [width] and [height] are those of its
    rectangle, except that a width or height of 0 (or NaN) counts as
    missing and is replaced by the size of the owner svg element. *)
Theorem nested_layout_area :
  forall (h : Host) (children : list Child) (dom : DOM) (child : Child)
         (id : string) (cw ch : float),
    NoDup (map node children) -> In child children ->
    exists r : Rect,
      In (node child, r) (placements (effects (render h children)))
      /\ let inner :=
           initial (nested_host (document_after_run h children dom)
                      (node child) id cw ch) in
         width inner
         = (if PrimFloat.is_nan (rect_width r) || PrimFloat.is_zero (rect_width r)
            then cw else rect_width r)
         /\ height inner
            = (if PrimFloat.is_nan (rect_height r)
                  || PrimFloat.is_zero (rect_height r)
               then ch else rect_height r)
         /\ undockedMargin inner = mkMargin 0 (width inner) (height inner) 0.
Proof.
  intros h children dom child id cw ch D I.
  destruct (render_places_each h children child I) as [r R].
  exists r. split; [exact R|].
  destruct (document_after (effects (render h children)) ([], dom)
              (node child) r (render_places_once h children D) R) as [W H].
  cbv zeta. unfold initial, nested_host, document_after_run.
  cbn [host_width host_height clientWidth clientHeight width height
         undockedMargin].
  rewrite W, H. unfold or_else, JS.truthy_number.
  split; [|split]; try reflexivity.
  - now destruct (PrimFloat.is_nan (rect_width r)
                  || PrimFloat.is_zero (rect_width r)).
  - now destruct (PrimFloat.is_nan (rect_height r)
                  || PrimFloat.is_zero (rect_height r)).
Qed.

Lemma nested_layout_area_witness :
  exists r : Rect,
    In (2%nat, r)
      (layout 200 100
         [mkChild 1 [("dock", "left"); ("width", "200")]; mkChild 2 []])
    /\ let inner :=
         initial
           (nested_host
              (document_after_run (parent 200 100)
                 [mkChild 1 [("dock", "left"); ("width", "200")]; mkChild 2 []]
                 (fun _ => mkPlaced None None None))
              2 "2" 640 480) in
       width inner
       = (if PrimFloat.is_nan (rect_width r) || PrimFloat.is_zero (rect_width r)
          then 640 else rect_width r)
       /\ height inner
          = (if PrimFloat.is_nan (rect_height r)
                || PrimFloat.is_zero (rect_height r)
             then 480 else rect_height r)
       /\ undockedMargin inner = mkMargin 0 (width inner) (height inner) 0.
Proof.
  apply (nested_layout_area (parent 200 100)
           [mkChild 1 [("dock", "left"); ("width", "200")]; mkChild 2 []]
           (fun _ => mkPlaced None None None) (mkChild 2 []) "2" 640 480).
  - repeat constructor; cbn; intuition discriminate.
  - right. now left.
Defined.

(** The nested layout of the witness is handed a rectangle 0 wide, and so
    lays its own children out over the 640 of the svg element. *)
Example nested_layout_zero_width :
  layout 200 100 [mkChild 1 [("dock", "left"); ("width", "200")]; mkChild 2 []]
  = [(1%nat, mkRect 0 0 200 100); (2%nat, mkRect 200 0 0 100)]
  /\ width
       (initial
          (nested_host
             (document_after_run (parent 200 100)
                [mkChild 1 [("dock", "left"); ("width", "200")]; mkChild 2 []]
                (fun _ => mkPlaced None None None))
             2 "2" 640 480))
     = 640.
Proof. split; vm_compute; reflexivity. Qed.

(** ** The frame and the docked children *)

Lemma grows_Math_max_l a b : FloatOrder.grows a (JS.Math_max a b) = true.
Proof. rewrite Math_max_comm. apply grows_Math_max. Qed.

Lemma shrinks_Math_min_l a b : FloatOrder.shrinks a (JS.Math_min a b) = true.
Proof. rewrite Math_min_comm. apply shrinks_Math_min. Qed.

Lemma footprint_bound_prefix st pre child :
  footprint_bound (docked_pass st pre) child = footprint_bound st child.
Proof.
  unfold footprint_bound, child_vars.
  now destruct (docked_pass_keeps pre st) as (-> & -> & -> & ->).
Qed.

Lemma each_child_reaches_bound st child :
  let F := undockedMargin (each_child st child) in
  let b := footprint_bound st child in
  match dock_of child with
  | Some dock_top => FloatOrder.grows b (top F) = true
  | Some dock_left => FloatOrder.grows b (left F) = true
  | Some dock_right => FloatOrder.shrinks b (right F) = true
  | Some dock_bottom => FloatOrder.shrinks b (bottom F) = true
  | None => True
  end.
Proof.
  cbv zeta. rewrite each_child_frame. cbv zeta. unfold footprint_bound.
  destruct (dock_of child) as [[]|]; cbn;
    auto using grows_Math_max_l, shrinks_Math_min_l.
Qed.

(** X6. The final frame clears every docked child: its top (left) bound
    is at or beyond the bound of each child docked to the top (left),
    and its bottom (right) bound at or before the bound of each child
    docked to the bottom (right) - or the frame bound is NaN. *)
Theorem frame_clears_docked_children :
  forall (st : Locals) (children : list Child) (child : Child),
    In child children ->
    let F := undockedMargin (docked_pass st children) in
    let b := footprint_bound st child in
    match dock_of child with
    | Some dock_top => PrimFloat.is_nan (top F) || PrimFloat.leb b (top F) = true
    | Some dock_left =>
        PrimFloat.is_nan (left F) || PrimFloat.leb b (left F) = true
    | Some dock_right =>
        PrimFloat.is_nan (right F) || PrimFloat.leb (right F) b = true
    | Some dock_bottom =>
        PrimFloat.is_nan (bottom F) || PrimFloat.leb (bottom F) b = true
    | None => True
    end.
Proof.
  intros st children child I. cbv zeta.
  apply in_split in I as (pre & post & ->).
  rewrite docked_pass_app, docked_pass_cons.
  pose proof (docked_pass_tightens post
                (each_child (docked_pass st pre) child)) as T.
  unfold tightens in T. rewrite !andb_true_iff in T.
  destruct T as (((Tt & Tl) & Tr) & Tb).
  pose proof (each_child_reaches_bound (docked_pass st pre) child) as B.
  cbv zeta in B. rewrite footprint_bound_prefix in B.
  destruct (dock_of child) as [[]|]; [| | | |exact I].
  - exact (grows_trans _ _ _ B Tt).
  - exact (shrinks_trans _ _ _ B Tr).
  - exact (shrinks_trans _ _ _ B Tb).
  - exact (grows_trans _ _ _ B Tl).
Qed.

Lemma frame_clears_docked_children_witness :
  PrimFloat.leb 30
    (top (undockedMargin
            (docked_pass (initial (parent 200 100))
               [mkChild 1 [("dock", "top"); ("height", "30")];
                mkChild 2 [("dock", "top"); ("height", "10")]])))
  = true.
Proof.
  exact (frame_clears_docked_children (initial (parent 200 100))
           [mkChild 1 [("dock", "top"); ("height", "30")];
            mkChild 2 [("dock", "top"); ("height", "10")]]
           (mkChild 1 [("dock", "top"); ("height", "30")])
           (or_introl eq_refl)).
Defined.

(** ** Attributes the layout does not read *)

Lemma lookup_filter_keys (drop : string -> bool) name l :
  lookup name (filter (fun kv => negb (drop (fst kv))) l)
  = if drop name then None else lookup name l.
Proof.
  induction l as [|[k v] l IH]; cbn [lookup filter fst].
  - now destruct (drop name).
  - destruct (String.eqb_spec k name) as [->|N].
    + destruct (drop name) eqn:D; cbn [negb lookup].
      * rewrite IH. now rewrite ?D.
      * now rewrite String.eqb_refl.
    + destruct (drop k); cbn [negb lookup]; rewrite IH.
      * reflexivity.
      * apply String.eqb_neq in N. rewrite N. reflexivity.
Qed.

Lemma attr_without_size child name :
  attr (without_size child) name
  = if String.eqb name "width" || String.eqb name "height" then None
    else attr child name.
Proof.
  unfold attr, without_size. cbn [attributes].
  apply (lookup_filter_keys
           (fun k => String.eqb k "width" || String.eqb k "height")).
Qed.

Lemma each_child_ignore_size st child :
  each_child st (ignore_size child) = each_child st child.
Proof.
  unfold ignore_size, is_docked.
  destruct (dock_of child) as [d|] eqn:D; [reflexivity|].
  assert (D' : dock_of (without_size child) = None)
    by (unfold dock_of; rewrite attr_without_size; exact D).
  assert (U : unsupported (without_size child) = unsupported child)
    by (unfold unsupported; now rewrite D, D', attr_without_size).
  rewrite (each_child_deferred _ _ D), (each_child_deferred _ _ D'), U.
  now rewrite attr_without_size.
Qed.

(** X7. The [width] and [height] attributes of undocked children (no
    dock, or an unsupported one) are not used: a run over the children
    with these attributes removed ends in the same state, with the same
    effects. *)
Theorem undocked_size_attributes_unused :
  forall (h : Host) (children : list Child),
    render h (map ignore_size children) = render h children.
Proof.
  intros h children. unfold render. f_equal.
  generalize (initial h).
  induction children as [|c cs IH]; intros st; [reflexivity|].
  cbn [map]. now rewrite !docked_pass_cons, each_child_ignore_size, IH.
Qed.

(** ** Margins written with commas *)

Lemma append_snoc cur c s :
  ((cur ++ String c EmptyString) ++ s)%string = (cur ++ String c s)%string.
Proof. induction cur as [|a cur IH]; cbn; [reflexivity|]. now rewrite IH. Qed.

Lemma append_empty_r s : (s ++ "")%string = s.
Proof. induction s as [|a s IH]; cbn; [reflexivity|]. now rewrite IH. Qed.

Lemma split_from_free s : forall cur,
  comma_free s = true -> JS.split_from "," cur s = [(cur ++ s)%string].
Proof.
  induction s as [|c s IH]; intros cur F; cbn.
  - now rewrite append_empty_r.
  - cbn in F. apply andb_true_iff in F as [C F].
    apply negb_true_iff in C. rewrite C, (IH _ F). now rewrite append_snoc.
Qed.

Lemma split_from_comma s rest : forall cur,
  comma_free s = true ->
  JS.split_from "," cur (s ++ String "," rest)
  = (cur ++ s)%string :: JS.split_from "," EmptyString rest.
Proof.
  induction s as [|c s IH]; intros cur F; cbn.
  - now rewrite append_empty_r.
  - cbn in F. apply andb_true_iff in F as [C F].
    apply negb_true_iff in C. rewrite C, (IH _ F). now rewrite append_snoc.
Qed.

(** [split] undoes [join] on parts that hold no comma. *)
Lemma split_join p rest :
  forallb comma_free (p :: rest) = true ->
  JS.split "," (join_commas (p :: rest)) = p :: rest.
Proof.
  revert p. induction rest as [|q rest IH]; intros p F.
  - cbn in F. rewrite andb_true_r in F. cbn [join_commas].
    unfold JS.split. now rewrite split_from_free.
  - cbn [forallb] in F. apply andb_true_iff in F as [Fp F].
    change (join_commas (p :: q :: rest))
      with (p ++ String "," (join_commas (q :: rest)))%string.
    unfold JS.split. rewrite (split_from_comma _ _ _ Fp). cbn [String.append].
    f_equal. apply (IH q F).
Qed.

(** X8. For parts that hold no comma, [parseMargin] of the parts joined
    by commas is the shorthand table over those very parts: one part for
    all sides, two for top/bottom and left/right, three for top,
    left/right, bottom, the first four of more for top, right, bottom,
    left, each part counting as 0 when it is not a number. *)
Theorem parseMargin_of_joined_parts :
  forall (p : string) (rest : list string),
    forallb comma_free (p :: rest) = true ->
    parseMargin (Some (join_commas (p :: rest))) = spec_margin (p :: rest).
Proof.
  intros p rest F.
  destruct (join_commas (p :: rest)) as [|c s] eqn:J.
  - destruct rest as [|q rest].
    + cbn in J. subst p. vm_compute. reflexivity.
    + change (join_commas (p :: q :: rest))
        with (p ++ String "," (join_commas (q :: rest)))%string in J.
      destruct p; discriminate.
  - rewrite parseMargin_nonempty, parseParts_table, <- J.
    now rewrite (split_join p rest F).
Qed.

Lemma parseMargin_of_joined_parts_witness :
  parseMargin (Some "4, 8 ,x") = mkMargin 4 8 0 8.
Proof.
  exact (parseMargin_of_joined_parts "4" [" 8 "; "x"] eq_refl).
Defined.

(** ** Layouts with nothing docked, and with a size that is not a number *)

Lemma sub_zero_r a : a - 0 = a.
Proof.
  apply Prim2SF_inj. rewrite sub_spec.
  change (Prim2SF 0) with (S754_zero false).
  now destruct (Prim2SF a) as [[]|[]| |[] m e].
Qed.

Lemma spec_undocked_whole w h :
  spec_undocked (mkMargin 0 w h 0) (mkMargin 0 0 0 0) = mkRect 0 0 w h.
Proof.
  unfold spec_undocked. cbn [top right bottom left].
  change (0 + 0) with 0. now rewrite !sub_zero_r.
Qed.

Lemma filter_all (f : Child -> bool) l :
  forallb f l = true -> filter f l = l.
Proof.
  induction l as [|a l IH]; cbn; [reflexivity|].
  intros H. apply andb_true_iff in H as [-> H]. now rewrite IH.
Qed.

Lemma filter_none (f : Child -> bool) l :
  forallb (fun c => negb (f c)) l = true -> filter f l = [].
Proof.
  induction l as [|a l IH]; cbn; [reflexivity|].
  intros H. apply andb_true_iff in H as [N H].
  apply negb_true_iff in N. now rewrite N, IH.
Qed.

(** X9. When no child is docked to a side, the rectangles come out in
    input order, each the parent area less the child's own margin; a
    child with no [margin] attribute gets exactly (0, 0, width, height). *)
Theorem nothing_docked_fills_parent :
  forall (h : Host) (children : list Child),
    forallb is_undocked children = true ->
    placements (effects (render h children))
    = map (fun c =>
             (node c,
              match attr c "margin" with
              | None => mkRect 0 0 (width (initial h)) (height (initial h))
              | Some _ =>
                  spec_undocked
                    (mkMargin 0 (width (initial h)) (height (initial h)) 0)
                    (parseMargin (attr c "margin"))
              end))
        children.
Proof.
  intros h children U.
  rewrite render_placements, docked_pass_frame_docked_only.
  rewrite (filter_none is_docked children U), (filter_all _ _ U).
  replace (flat_map (fun c => placements (step_effects (initial h) c)) children)
    with (@nil (nat * Rect)).
  - cbn [app docked_pass fold_left initial undockedMargin width height].
    apply map_ext. intros c.
    destruct (attr c "margin"); [reflexivity|].
    now rewrite <- spec_undocked_whole.
  - symmetry. clear -U. induction children as [|c cs IH]; [reflexivity|].
    cbn in U. apply andb_true_iff in U as [Uc U]. cbn [flat_map].
    rewrite (IH U), app_nil_r. unfold step_effects.
    unfold is_undocked, is_docked in Uc.
    destruct (dock_of c); [discriminate|]. now destruct (unsupported c).
Qed.

Lemma nothing_docked_fills_parent_witness :
  layout 200 100 [mkChild 1 []; mkChild 2 [("dock", "centre")]]
  = [(1%nat, mkRect 0 0 200 100); (2%nat, mkRect 0 0 200 100)].
Proof.
  exact (nothing_docked_fills_parent (parent 200 100)
           [mkChild 1 []; mkChild 2 [("dock", "centre")]] eq_refl).
Defined.

Lemma grows_from_NaN a b :
  FloatOrder.grows a b = true -> PrimFloat.is_nan a = true ->
  PrimFloat.is_nan b = true.
Proof.
  unfold FloatOrder.grows. rewrite leb_key, !is_nan_key.
  unfold FloatOrder.kcompare.
  destruct (FloatOrder.key (Prim2SF a)), (FloatOrder.key (Prim2SF b));
    cbn; congruence.
Qed.

Lemma shrinks_from_NaN a b :
  FloatOrder.shrinks a b = true -> PrimFloat.is_nan a = true ->
  PrimFloat.is_nan b = true.
Proof.
  unfold FloatOrder.shrinks. rewrite leb_key, !is_nan_key.
  unfold FloatOrder.kcompare.
  destruct (FloatOrder.key (Prim2SF a)), (FloatOrder.key (Prim2SF b));
    cbn; congruence.
Qed.

(** A frame bound that is NaN stays NaN to the end of the pass. *)
Lemma docked_pass_keeps_NaN st children :
  let F := undockedMargin st in
  let F' := undockedMargin (docked_pass st children) in
  (PrimFloat.is_nan (top F) = true -> PrimFloat.is_nan (top F') = true)
  /\ (PrimFloat.is_nan (right F) = true -> PrimFloat.is_nan (right F') = true)
  /\ (PrimFloat.is_nan (bottom F) = true -> PrimFloat.is_nan (bottom F') = true)
  /\ (PrimFloat.is_nan (left F) = true -> PrimFloat.is_nan (left F') = true).
Proof.
  cbv zeta. pose proof (docked_pass_tightens children st) as T.
  unfold tightens in T. rewrite !andb_true_iff in T.
  destruct T as (((Tt & Tl) & Tr) & Tb).
  repeat split; eauto using grows_from_NaN, shrinks_from_NaN.
Qed.

Lemma footprint_bound_NaN st child s d :
  dock_of child = Some d ->
  attr child (match d with
              | dock_left | dock_right => "width"
              | dock_top | dock_bottom => "height"
              end) = Some s ->
  JS.truthy (Some s) = true -> JS.isNaN (JS.Number s) = true ->
  PrimFloat.is_nan (footprint_bound st child) = true.
Proof.
  intros D A T N. unfold footprint_bound, child_vars, childDockHeight,
    childDockWidth. rewrite D. cbn [childWidth childHeight].
  destruct d; rewrite (attr_number_or_given _ _ _ _ A T);
    first [apply add_NaN_r | apply sub_NaN_r]; apply add_NaN_l, add_NaN_r, N.
Qed.

(** From a docked child whose size is not a number on, the bound of its
    side is NaN. *)
Lemma bad_size_bound_NaN st children child s d :
  In child children -> dock_of child = Some d ->
  attr child (match d with
              | dock_left | dock_right => "width"
              | dock_top | dock_bottom => "height"
              end) = Some s ->
  JS.truthy (Some s) = true -> JS.isNaN (JS.Number s) = true ->
  PrimFloat.is_nan (side_bound d (undockedMargin (docked_pass st children)))
  = true.
Proof.
  intros I D A T N.
  pose proof (footprint_bound_NaN st child s d D A T N) as B.
  apply in_split in I as (pre & post & ->).
  rewrite docked_pass_app, docked_pass_cons.
  pose proof (each_child_reaches_bound (docked_pass st pre) child) as R.
  cbv zeta in R. rewrite footprint_bound_prefix, D in R.
  destruct (docked_pass_keeps_NaN (each_child (docked_pass st pre) child) post)
    as (Kt & Kr & Kb & Kl).
  destruct d; cbn [side_bound].
  - exact (Kt (grows_from_NaN _ _ R B)).
  - exact (Kr (shrinks_from_NaN _ _ R B)).
  - exact (Kb (shrinks_from_NaN _ _ R B)).
  - exact (Kl (grows_from_NaN _ _ R B)).
Qed.

(** X10. One docked child with a size that is not a number spoils the
    frame and every undocked child: when a child docked to a side has a
    non-empty [width] (left, right) or [height] (top, bottom) for which
    [Number] gives NaN, the frame bound of that side is NaN at every
    point of the first loop from that child on and when the handler
    returns, and every undocked child is handed a rectangle whose width
    (left, right) or height (top, bottom) is NaN, and whose x (left) or
    y (top) is NaN as well. *)
Theorem bad_size_spoils_undocked_children :
  forall (h : Host) (children : list Child) (child : Child) (s : string)
         (d : Dock),
    In child children -> dock_of child = Some d ->
    attr child (match d with
                | dock_left | dock_right => "width"
                | dock_top | dock_bottom => "height"
                end) = Some s ->
    JS.truthy (Some s) = true -> JS.isNaN (JS.Number s) = true ->
    (forall n : nat,
        In child (firstn n children) ->
        JS.isNaN
          (side_bound d
             (undockedMargin (docked_pass (initial h) (firstn n children))))
        = true)
    /\ JS.isNaN (side_bound d (undockedMargin (render h children))) = true
    /\ (forall u : Child,
           In u children -> is_undocked u = true ->
           exists r : Rect,
             In (node u, r) (placements (effects (render h children)))
             /\ match d with
                | dock_left =>
                    JS.isNaN (rect_x r) = true
                    /\ JS.isNaN (rect_width r) = true
                | dock_right => JS.isNaN (rect_width r) = true
                | dock_top =>
                    JS.isNaN (rect_y r) = true
                    /\ JS.isNaN (rect_height r) = true
                | dock_bottom => JS.isNaN (rect_height r) = true
                end).
Proof.
  intros h children child s d I D A T N.
  pose proof (bad_size_bound_NaN (initial h) children child s d I D A T N)
    as F.
  split; [|split].
  - intros n In'.
    exact (bad_size_bound_NaN (initial h) _ child s d In' D A T N).
  - rewrite render_frame. exact F.
  - intros u Iu Uu. eexists. split.
    + rewrite render_placements. apply in_or_app. right.
      apply (in_map (fun c => (node c,
                       spec_undocked
                         (undockedMargin (docked_pass (initial h) children))
                         (parseMargin (attr c "margin"))))).
      apply filter_In. split; [exact Iu | exact Uu].
    + unfold spec_undocked. cbn [rect_x rect_y rect_width rect_height].
      destruct d; cbn [side_bound] in F.
      * split; [apply add_NaN_l, F | apply sub_NaN_r, add_NaN_l, F].
      * apply sub_NaN_l, sub_NaN_l, F.
      * apply sub_NaN_l, sub_NaN_l, F.
      * split; [apply add_NaN_l, F | apply sub_NaN_r, add_NaN_l, F].
Qed.

Lemma bad_size_spoils_undocked_children_witness :
  JS.isNaN
    (left (undockedMargin
             (render (parent 200 100)
                [mkChild 1 [("dock", "left"); ("width", "25px")];
                 mkChild 2 [("margin", "5")];
                 mkChild 3 [("dock", "left"); ("width", "40")]])))
  = true
  /\ exists r : Rect,
      In (2%nat, r)
        (layout 200 100
           [mkChild 1 [("dock", "left"); ("width", "25px")];
            mkChild 2 [("margin", "5")];
            mkChild 3 [("dock", "left"); ("width", "40")]])
      /\ JS.isNaN (rect_x r) = true /\ JS.isNaN (rect_width r) = true.
Proof.
  destruct (bad_size_spoils_undocked_children (parent 200 100)
              [mkChild 1 [("dock", "left"); ("width", "25px")];
               mkChild 2 [("margin", "5")];
               mkChild 3 [("dock", "left"); ("width", "40")]]
              (mkChild 1 [("dock", "left"); ("width", "25px")])
              "25px" dock_left
              (or_introl eq_refl) eq_refl eq_refl eq_refl eq_refl)
    as (_ & F & R).
  split; [exact F|].
  exact (R (mkChild 2 [("margin", "5")]) (or_intror (or_introl eq_refl))
           eq_refl).
Defined.


(** ** Where the handler throws *)

(** With both scope sizes truthy the svg element is not read. *)
Lemma initial_ignores_client_size id w h cw ch cw' ch' :
  truthy_size w && truthy_size h = true ->
  initial (mkHost id w h cw ch) = initial (mkHost id w h cw' ch').
Proof.
  intros T. apply andb_true_iff in T as [Tw Th].
  unfold initial, or_else. cbn [host_width host_height clientWidth
                                  clientHeight scope_id].
  destruct w as [w|]; [|discriminate]. destruct h as [h|]; [|discriminate].
  cbn in Tw, Th. now rewrite Tw, Th.
Qed.

Lemma perform_checked_throws has_scope es : forall out dom n,
  In n (map fst (placements es)) -> has_scope n = false ->
  outcome_threw (perform_checked has_scope es out dom) = true.
Proof.
  induction es as [|[msg|c a b w h] es IH]; intros out dom n I S;
    cbn [perform_checked placements map fst] in *.
  - contradiction.
  - now apply (IH _ _ n).
  - unfold positionChild_checked. destruct (has_scope c) eqn:C; [|reflexivity].
    destruct I as [<-|I]; [congruence|]. now apply (IH _ _ n).
Qed.

(** X11. The handler does not return when something it relies on is
    missing: with a child that has no isolate scope the run is stopped by
    the TypeError of [positionChild], and with no owner svg element and a
    missing or zero scope width or height it is stopped when the sizes
    are read, after the render message and before any child is touched. *)
Theorem handler_throws_when_unsupported :
  forall (has_scope : nat -> bool) (e : Element) (children : list Child)
         (out0 : list string) (dom : DOM),
    (forall (h : Host) (child : Child),
        host_of e = Some h -> In child children ->
        has_scope (node child) = false ->
        outcome_threw (handler has_scope e children out0 dom) = true)
    /\ (ownerSVGElement e = None ->
        truthy_size (element_width e) && truthy_size (element_height e)
        = false ->
        handler has_scope e children out0 dom
        = threw
            (out0 ++ [("bnlDockedLayout render:" ++ element_scope_id e)%string])
            dom).
Proof.
  intros has_scope e children out0 dom. split.
  - intros h child H I S. unfold handler. rewrite H.
    destruct (render_places_each h children child I) as [r R].
    apply (perform_checked_throws has_scope _ _ _ (node child)); [|exact S].
    apply (in_map fst) in R. exact R.
  - intros V T. unfold handler, host_of. now rewrite V, T.
Qed.

Lemma handler_throws_when_unsupported_witness :
  outcome_threw
    (handler (fun n => negb (Nat.eqb n 2))
       (mkElement "1" None None (Some (200, 100)))
       [mkChild 1 [("dock", "top"); ("height", "10")];
        mkChild 2 [("dock", "top"); ("height", "10")];
        mkChild 3 [("dock", "left"); ("width", "10")]]
       [] (fun _ => mkPlaced None None None))
  = true
  /\ handler (fun _ => true) (mkElement "1" (Some 0) (Some 100) None)
       [mkChild 1 []] [] (fun _ => mkPlaced None None None)
     = threw ["bnlDockedLayout render:1"] (fun _ => mkPlaced None None None).
Proof.
  split.
  - exact (proj1 (handler_throws_when_unsupported (fun n => negb (Nat.eqb n 2))
             (mkElement "1" None None (Some (200, 100)))
             [mkChild 1 [("dock", "top"); ("height", "10")];
              mkChild 2 [("dock", "top"); ("height", "10")];
              mkChild 3 [("dock", "left"); ("width", "10")]]
             [] (fun _ => mkPlaced None None None))
             (mkHost "1" None None 200 100)
             (mkChild 2 [("dock", "top"); ("height", "10")])
             eq_refl (or_intror (or_introl eq_refl)) eq_refl).
  - exact (proj2 (handler_throws_when_unsupported (fun _ => true)
             (mkElement "1" (Some 0) (Some 100) None)
             [mkChild 1 []] [] (fun _ => mkPlaced None None None))
             eq_refl eq_refl).
Defined.

(** In the run of the witness the first child is placed, the second, with
    no isolate scope, stops the run, and the third is never reached. *)
Example missing_scope_stops_the_run :
  let o :=
    handler (fun n => negb (Nat.eqb n 2))
      (mkElement "1" None None (Some (200, 100)))
      [mkChild 1 [("dock", "top"); ("height", "10")];
       mkChild 2 [("dock", "top"); ("height", "10")];
       mkChild 3 [("dock", "left"); ("width", "10")]]
      [] (fun _ => mkPlaced None None None) in
  outcome_threw o = true
  /\ outcome_console o = ["bnlDockedLayout render:1"]
  /\ outcome_dom o 1%nat = mkPlaced None (Some 200) (Some 10)
  /\ outcome_dom o 2%nat = mkPlaced None None None
  /\ outcome_dom o 3%nat = mkPlaced None None None.
Proof. repeat split; vm_compute; reflexivity. Qed.
